(** * Literature aggregation pipeline of bioncolab

    A shallow embedding of the literature route (identifier normalizers,
    [dedupeAndRank], the aggregation [POST]), of the PubMed single-paper
    [POST] and of the workspace's [mkGeminiContext], with the properties the
    specification states about them.

    Conventions of the embedding:
    - a JavaScript string is the list of its UTF-16 code units, so [length]
      is the [.length] of the source and [firstn] is [slice(0, n)];
    - [undefined]/[null] of an optional field is [None];
    - integral numbers (years, citation counts, indices) are [Z];
    - the ranking score is a double in the source. [scoreOf] and [rank]
      compute it in exact real arithmetic ([R]), without the rounding of
      [Math.log10], [*] and [+]; [scoreD] and [rankD] compute it in the
      arithmetic of the source, with the rounding of the sum
      [1 + Math.max(0, c)] written out and the [Math.log10] and the rounding
      of the engine as parameters;
    - [toLowerCase] is the ASCII case mapping: code units outside [A-Z] are
      left as they are. On ASCII strings it is the mapping of JavaScript,
      which lowers other letters as Unicode has it, some of them by their
      context. *)

From Stdlib Require Import List ZArith NArith Bool Lia String Ascii DecimalString.
From Stdlib Require Import Reals Lra Permutation Sorted.
Import ListNotations.

(** ** JavaScript string primitives *)

Module JS.

Definition jsstring := list N.

(** An ASCII literal of the source as code units. *)
Definition lit (s : string) : jsstring :=
  List.map N_of_ascii (list_ascii_of_string s).

(** Truthiness of a string: the empty string is falsy. *)
Definition truthy (s : jsstring) : bool :=
  match s with [] => false | _ :: _ => true end.

(** Truthiness of an optional string field ([undefined] is falsy). *)
Definition truthy_opt (s : option jsstring) : bool :=
  match s with Some t => truthy t | None => false end.

(** [a || b] on strings. *)
Definition or_else (a b : jsstring) : jsstring :=
  if truthy a then a else b.

Definition str_eq_dec (a b : jsstring) : {a = b} + {a <> b} :=
  list_eq_dec N.eq_dec a b.

Definition str_eqb (a b : jsstring) : bool :=
  if str_eq_dec a b then true else false.

Definition in_range (lo hi c : N) : bool := ((lo <=? c) && (c <=? hi))%N.

(** WhiteSpace and LineTerminator code units: what [trim] removes and what
    [\s] matches. *)
Definition is_ws (c : N) : bool :=
  in_range 9 13 c || (c =? 32)%N || (c =? 160)%N || (c =? 5760)%N
  || in_range 8192 8202 c || (c =? 8232)%N || (c =? 8233)%N
  || (c =? 8239)%N || (c =? 8287)%N || (c =? 12288)%N || (c =? 65279)%N.

(** [\d] *)
Definition is_digit (c : N) : bool := in_range 48 57 c.

(** [\w] = [A-Za-z0-9_] *)
Definition is_word (c : N) : bool :=
  in_range 65 90 c || in_range 97 122 c || is_digit c || (c =? 95)%N.

Fixpoint dropWhile (p : N -> bool) (s : jsstring) : jsstring :=
  match s with
  | [] => []
  | c :: r => if p c then dropWhile p r else s
  end.

Fixpoint takeWhile (p : N -> bool) (s : jsstring) : jsstring :=
  match s with
  | [] => []
  | c :: r => if p c then c :: takeWhile p r else []
  end.

Definition trimStart (s : jsstring) : jsstring := dropWhile is_ws s.
Definition trimEnd (s : jsstring) : jsstring := rev (dropWhile is_ws (rev s)).
Definition trim (s : jsstring) : jsstring := trimEnd (trimStart s).

Definition lower (c : N) : N := if in_range 65 90 c then (c + 32)%N else c.
Definition upper (c : N) : N := if in_range 97 122 c then (c - 32)%N else c.
Definition toLowerCase (s : jsstring) : jsstring := List.map lower s.
Definition toUpperCase (s : jsstring) : jsstring := List.map upper s.

(** [String(n)] / [`${n}`] of an integral number of magnitude up to [2^53],
    as years and indices are: all its digits. (Beyond, JavaScript prints the
    shortest digits that give the double back, and an exponent from [10^21]
    on.) *)
Definition ofZ (n : Z) : jsstring := lit (NilZero.string_of_int (Z.to_int n)).

(** [a.join(sep)] *)
Fixpoint join (sep : jsstring) (l : list jsstring) : jsstring :=
  match l with
  | [] => []
  | [a] => a
  | a :: r => a ++ sep ++ join sep r
  end.

(** Matching a literal at the head of the input: the rest after it. *)
Fixpoint after (p s : jsstring) : option jsstring :=
  match p, s with
  | [], _ => Some s
  | _ :: _, [] => None
  | a :: p', b :: s' => if (a =? b)%N then after p' s' else None
  end.

(** Regex sequencing and the greedy optional group [(p)?] followed by the
    continuation [k]: first with the group, then, backtracking, without. *)
Definition andThen (m : jsstring -> option jsstring)
    (k : jsstring -> option jsstring) (s : jsstring) : option jsstring :=
  match m s with Some r => k r | None => None end.

Definition optional (m : jsstring -> option jsstring)
    (k : jsstring -> option jsstring) (s : jsstring) : option jsstring :=
  match andThen m k s with Some r => Some r | None => k s end.

(** [s.replace(/^re/, '')] for an anchored regex with matcher [m]. *)
Definition stripPrefix (m : jsstring -> option jsstring) (s : jsstring)
  : jsstring :=
  match m s with Some r => r | None => s end.

(** [x.slice(0, e)] for an integral [e]: a negative end counts from the
    back. *)
Definition slice0 {A : Type} (l : list A) (e : Z) : list A :=
  let len := Z.of_nat (List.length l) in
  let stop := if (e <? 0)%Z then Z.max (len + e) 0 else Z.min e len in
  firstn (Z.to_nat stop) l.

End JS.

Import JS.

(** ** The literature route *)

Module Literature.

Inductive Source := crossref | arxiv | s2.

Record LitItem := {
  id : jsstring;
  source : Source;
  title : jsstring;
  year : option Z;
  authors : option (list jsstring);
  abstract_ : option jsstring;
  doi : option jsstring;
  url : option jsstring;
  citationCount : option Z;
  externalIds : option (list (jsstring * jsstring))
}.

(** *** Identifier normalizers *)

(** [/^https?:\/\/(dx\.)?doi\.org\//] *)
Definition doiPrefix : jsstring -> option jsstring :=
  andThen (after (lit "http"))
    (optional (after (lit "s"))
       (andThen (after (lit "://"))
          (optional (after (lit "dx.")) (after (lit "doi.org/"))))).

Definition normDOI (doi : option jsstring) : option jsstring :=
  match doi with
  | None => None
  | Some raw =>
      if negb (truthy raw) then None
      else
        let d := toLowerCase (trim raw) in
        let d := stripPrefix doiPrefix d in
        if truthy d then Some d else None
  end.

(** [s.replace(/v\d+$/, '')]: the match has to reach the end of the input, so
    it is the last run of digits, when that run is not empty and a [v]
    stands before it. *)
Definition stripVersion (s : jsstring) : jsstring :=
  let r := rev s in
  match takeWhile is_digit r, dropWhile is_digit r with
  | _ :: _, c :: rest => if (c =? 118)%N then rev rest else s
  | _, _ => s
  end.

Definition normArxivId (id : option jsstring) : option jsstring :=
  match id with
  | None => None
  | Some raw =>
      if negb (truthy raw) then None
      else
        let s := toLowerCase (trim raw) in
        let s := stripPrefix (after (lit "arxiv:")) s in
        let s := stripVersion s in
        if truthy s then Some s else None
  end.

(** [.replace(/[\s]+/g, ' ')]: every maximal run of whitespace becomes one
    space; [inRun] tells that the previous code unit was whitespace. *)
Fixpoint collapseWs (inRun : bool) (s : jsstring) : jsstring :=
  match s with
  | [] => []
  | c :: r =>
      if is_ws c
      then if inRun then collapseWs true r else 32%N :: collapseWs true r
      else c :: collapseWs false r
  end.

(** [.replace(/[^\w\s]/g, '')] *)
Definition stripPunct (s : jsstring) : jsstring :=
  filter (fun c => is_word c || is_ws c) s.

Definition normTitle (t : jsstring) : jsstring :=
  trim (stripPunct (collapseWs false (toLowerCase t))).

(** *** Dedupe + rank *)

(** Truthiness of an optional number: [undefined] and [0] are falsy. *)
Definition truthyZ (n : option Z) : bool :=
  match n with Some z => negb (z =? 0)%Z | None => false end.

(** [x.externalIds?.arXiv] *)
Fixpoint lookup (k : jsstring) (o : list (jsstring * jsstring))
  : option jsstring :=
  match o with
  | [] => None
  | (k', v) :: r => if str_eqb k k' then Some v else lookup k r
  end.

Definition arXivOf (x : LitItem) : option jsstring :=
  match externalIds x with
  | Some o => lookup (lit "arXiv") o
  | None => None
  end.

Definition makeKey (x : LitItem) : jsstring :=
  let doi :=
    match doi x with
    | Some d => if truthy d then lit "doi:" ++ d else []
    | None => []
    end in
  let ax :=
    match arXivOf x with
    | Some a => if truthy a then lit "arxiv:" ++ a else []
    | None => []
    end in
  let normT := normTitle (title x) in
  let y :=
    match year x with
    | Some n => if truthyZ (Some n) then lit "y:" ++ ofZ n else []
    | None => []
    end in
  or_else doi (or_else ax (lit "t:" ++ normT ++ lit "|" ++ y)).

(** [x.citationCount || 0], and [x.citationCount ?? 0], which is the same
    number. *)
Definition count (x : LitItem) : Z :=
  match citationCount x with Some c => c | None => 0%Z end.

(** The representative kept when [it] collides with the stored
    [existing]. *)
Definition pick (it existing : LitItem) : LitItem :=
  if (count existing <? count it)%Z then it
  else if truthy_opt (abstract_ existing) then existing
  else if truthy_opt (abstract_ it) then it
  else existing.

(** [Map<Key, LitItem>]: the entries in insertion order. *)
Definition KeyMap := list (jsstring * LitItem).

Fixpoint get (k : jsstring) (m : KeyMap) : option LitItem :=
  match m with
  | [] => None
  | (k', v) :: r => if str_eqb k k' then Some v else get k r
  end.

(** [set] on a key that is present replaces the value in place; a new key
    goes to the end. *)
Fixpoint set (k : jsstring) (v : LitItem) (m : KeyMap) : KeyMap :=
  match m with
  | [] => [(k, v)]
  | (k', v') :: r =>
      if str_eqb k k' then (k, v) :: r else (k', v') :: set k v r
  end.

Definition values (m : KeyMap) : list LitItem := List.map snd m.

(** One iteration of the [for (const it of items)] loop. *)
Definition step (byKey : KeyMap) (it : LitItem) : KeyMap :=
  let k := makeKey it in
  if negb (truthy k) then byKey
  else
    match get k byKey with
    | None => set k it byKey
    | Some existing => set k (pick it existing) byKey
    end.

Definition collect (items : list LitItem) : KeyMap :=
  fold_left step items [].

(** [merged] *)
Definition dedupe (items : list LitItem) : list LitItem :=
  values (collect items).

(** The score, first without the rounding of doubles: the exact logarithm,
    product and sums. [scoreD] below has the rounding. *)
Definition log10 (x : R) : R := (ln x / ln 10)%R.

Definition age (nowYear : Z) (x : LitItem) : Z :=
  match year x with
  | Some y => if truthyZ (Some y) then (nowYear - y)%Z else 10%Z
  | None => 10%Z
  end.

Definition recency (nowYear : Z) (x : LitItem) : Z :=
  let a := age nowYear x in
  if (a <=? 2)%Z then 2%Z else if (a <=? 5)%Z then 1%Z else 0%Z.

Definition srcNudge (x : LitItem) : R :=
  match source x with s2 => 0.1%R | _ => 0%R end.

Definition scoreOf (nowYear : Z) (x : LitItem) : R :=
  let c := count x in
  let cit := (log10 (1 + IZR (Z.max 0 c)) * 1.5)%R in
  (cit + IZR (recency nowYear x) + srcNudge x)%R.

Record Scored := { score : R; item : LitItem }.

(** The comparator [(a, b) => b.score - a.score]. *)
Definition byScoreDesc (a b : Scored) : R := (score b - score a)%R.

(** [Array.prototype.sort] is a stable sort: of the orders that agree with
    the comparator it returns the one that keeps ties in input order. With a
    consistent comparator that result is unique; it is computed here by
    insertion from the right, an element passing only those it has to come
    after ([cmp a b > 0]). *)
Fixpoint insert (cmp : Scored -> Scored -> R) (a : Scored) (l : list Scored)
  : list Scored :=
  match l with
  | [] => [a]
  | b :: r =>
      if Rlt_dec 0 (cmp a b) then b :: insert cmp a r else a :: b :: r
  end.

Definition sort (cmp : Scored -> Scored -> R) (l : list Scored)
  : list Scored :=
  fold_right (insert cmp) [] l.

Definition rank (nowYear : Z) (merged : list LitItem) : list LitItem :=
  let scored :=
    List.map (fun x => {| score := scoreOf nowYear x; item := x |}) merged in
  List.map item (sort byScoreDesc scored).

Record Ranked := { items : list LitItem; top : list LitItem }.

Definition dedupeAndRank (items : list LitItem) (nowYear : Z) (topN : Z)
  : Ranked :=
  let merged := dedupe items in
  {| items := merged; top := slice0 (rank nowYear merged) topN |}.

(** *** The score in the arithmetic of the source

    The numbers of the source are IEEE 754 doubles. Among the integers, the
    doubles are those of magnitude up to [2^53] and, from there on, the
    multiples of [2^e] between [2^(52+e)] and [2^(53+e)]. [toDouble] rounds
    an integer to the nearest double, a tie to the double with the even
    significand: it is how the sum of two such doubles is rounded.
    Magnitudes from [2^1024] on, where doubles overflow, are outside its
    scope. *)
Definition toDouble (n : Z) : Z :=
  let a := Z.abs n in
  let e := (Z.log2 a - 52)%Z in
  if (e <=? 0)%Z then n
  else
    let ulp := (2 ^ e)%Z in
    let q := (a / ulp)%Z in
    let r := (a mod ulp)%Z in
    let up := ((ulp <? 2 * r) || ((ulp =? 2 * r) && Z.odd q))%Z in
    (Z.sgn n * ((if up then q + 1 else q) * ulp))%Z.



Section Engine.

(** Behind the sum, the score is left to the engine. ECMAScript does not fix
    the precision of [Math.log10]; [*] and [+] round their exact result to a
    double. The doubles met here are finite (the logarithm is taken of a
    number from 1 on), and a finite double is the real number it denotes;
    of two of them, [b.score - a.score] has the sign of their exact
    difference, which is what the comparator of the sort hands back. *)
Variable Math_log10 : R -> R.
Variable rnd : R -> R.




End Engine.

(** *** Route *)

(** A settled adapter promise: the records, or the [message] of the error it
    was rejected with. *)
Inductive Settled :=
| fulfilled (value : list LitItem)
| rejected (message : jsstring).

Definition valueOf (r : Settled) : list LitItem :=
  match r with fulfilled v => v | rejected _ => [] end.

(** [(r as any)?.reason?.message] *)
Definition reasonMessage (r : Settled) : option jsstring :=
  match r with fulfilled _ => None | rejected m => Some m end.

(** [a || b] where [a] may be [undefined]. *)
Definition orElse (a : option jsstring) (b : jsstring) : jsstring :=
  match a with Some s => or_else s b | None => b end.

Inductive Payload :=
| errorBody (error : jsstring)
| resultBody (items top : list LitItem) (warning : option jsstring).

Record Response := { status : Z; payload : Payload }.

Definition json (data : Payload) (status : Z) : Response :=
  {| status := status; payload := data |}.

(** The parsed request body; a body that is not JSON is [{}]. *)
Record Request := { query : option jsstring; limit : option Z }.

Definition provideQuery : jsstring :=
  lit "Provide " ++ [34%N] ++ lit "query" ++ [34%N].

(** [Math.min(Math.max(Number(body?.limit || 20), 1), 50)] *)
Definition limitOf (req : Request) : Z :=
  Z.min (Z.max (if truthyZ (limit req)
                then match limit req with Some n => n | None => 20 end
                else 20) 1) 50.

Section Route.

(** The three adapters as they settle for a query and a limit, and the
    year of the clock. *)
Variables searchCrossref searchArxiv searchS2 : jsstring -> Z -> Settled.
Variable currentYear : Z.

(** The handler. Nothing in it throws on a typed body, so the [catch] of
    the source, which answers 500, is not reached. *)
Definition POST (req : Request) : Response :=
  let query := trim (orElse (query req) []) in
  let limit := limitOf req in
  if negb (truthy query) then json (errorBody provideQuery) 400
  else
    let cr := searchCrossref query limit in
    let ax := searchArxiv query limit in
    let s2 := searchS2 query limit in
    let items := valueOf cr ++ valueOf ax ++ valueOf s2 in
    match items with
    | [] =>
        let err :=
          orElse (reasonMessage cr)
            (orElse (reasonMessage ax)
               (orElse (reasonMessage s2) (lit "No results"))) in
        json (resultBody [] [] (Some err)) 200
    | _ :: _ =>
        let r := dedupeAndRank items currentYear 12 in
        json (resultBody (Literature.items r) (top r) None) 200
    end.

End Route.

End Literature.

(** ** The PubMed single-paper route *)

Module PubMed.

(** What an awaited call does: it returns, or it throws an error with a
    [message]. *)
Inductive Outcome (A : Type) :=
| returns (a : A)
| throws (message : jsstring).

Arguments returns {A} a.
Arguments throws {A} message.

Definition bind {A B : Type} (m : Outcome A) (k : A -> Outcome B)
  : Outcome B :=
  match m with returns a => k a | throws e => throws e end.

Notation "x <- m ;; k" := (bind m (fun x => k))
  (at level 61, m at next level, right associativity).

Section Route.

(** The summary document of E-utilities and the paper built from it stay
    abstract: the route only passes them on. *)
Variables Summary Paper : Type.

Inductive Payload :=
| errorBody (error : jsstring)
| paperBody (paper : Paper).

Record Response := { status : Z; payload : Payload }.

Definition json (data : Payload) (status : Z) : Response :=
  {| status := status; payload := data |}.

(** The parsed request body; a body that is not JSON is [{}]. *)
Record Request := { pmid : option jsstring; query : option jsstring }.

(** The three E-utilities calls, and [buildPaper], which runs inside the
    [try] as they do: on a summary of an unexpected shape (an [idtype] that
    is a number, say) it throws, and the error is caught with theirs. *)
Variable esearchFirstPMID : jsstring -> Outcome (option jsstring).
Variable esummaryOne : jsstring -> Outcome Summary.
Variable efetchAbstractOne : jsstring -> Outcome jsstring.
Variable buildPaper : jsstring -> Summary -> jsstring -> Outcome Paper.

(** [body?.f ? String(body.f).trim() : ''] *)
Definition field (f : option jsstring) : jsstring :=
  if truthy_opt f then match f with Some s => trim s | None => [] end
  else [].

Definition providePmidOrQuery : jsstring :=
  lit "Provide " ++ [34%N] ++ lit "pmid" ++ [34%N] ++ lit " or "
  ++ [34%N] ++ lit "query" ++ [34%N].

(** The body of the [try] block. *)
Definition handle (req : Request) : Outcome Response :=
  let pmidRaw := field (pmid req) in
  let queryRaw := field (query req) in
  let rest (pmid : jsstring) : Outcome Response :=
    s <- esummaryOne pmid ;;
    ab <- efetchAbstractOne pmid ;;
    paper <- buildPaper pmid s ab ;;
    returns (json (paperBody paper) 200) in
  if negb (truthy pmidRaw) then
    if negb (truthy queryRaw) then
      returns (json (errorBody providePmidOrQuery) 400)
    else
      found <- esearchFirstPMID queryRaw ;;
      let pmid := match found with Some i => or_else i [] | None => [] end in
      if negb (truthy pmid) then
        returns (json (errorBody (lit "No PubMed result for: " ++ queryRaw))
                   404)
      else rest pmid
  else rest pmidRaw.

(** [try { ... } catch (e) { return json({ error: e.message || 'Server
    error' }, 500) }] *)
Definition POST (req : Request) : Response :=
  match handle req with
  | returns r => r
  | throws m => json (errorBody (or_else m (lit "Server error"))) 500
  end.

End Route.

Arguments errorBody {Paper} error.
Arguments paperBody {Paper} paper.
Arguments json {Paper} data status.
Arguments POST {Summary Paper} esearchFirstPMID esummaryOne efetchAbstractOne
  buildPaper req.

End PubMed.

(** ** The workspace page: the digest handed to the synthesis backend *)

Module Workspace.

Import Literature.

Definition compactAuthors (a : option (list jsstring)) : jsstring :=
  match a with
  | None => []
  | Some [] => []
  | Some l =>
      if (List.length l <=? 3)%nat then join (lit ", ") l
      else join (lit ", ") (firstn 3 l) ++ lit " et al."
  end.

Definition sourceName (s : Source) : jsstring :=
  match s with
  | crossref => lit "crossref"
  | arxiv => lit "arxiv"
  | s2 => lit "s2"
  end.

(** The em dash of the cite line, with its spaces. *)
Definition dash : jsstring := [32%N; 8212%N; 32%N].

(** [`#${idx+1} ${x.title}${yr} — ${compactAuthors(x.authors)}
    [${src}]${doi}${url ? ` — ${url}` : ''}`] *)
Definition mkCiteLine (x : LitItem) (idx : nat) : jsstring :=
  let yr :=
    match year x with
    | Some y => if truthyZ (Some y) then lit " (" ++ ofZ y ++ lit ")" else []
    | None => []
    end in
  let src := toUpperCase (sourceName (source x)) in
  let doi :=
    match doi x with
    | Some d => if truthy d then dash ++ lit "doi:" ++ d else []
    | None => []
    end in
  let url :=
    match url x with
    | Some u => if truthy u then lit " " ++ u else []
    | None => []
    end in
  lit "#" ++ ofZ (Z.of_nat idx + 1) ++ lit " " ++ title x ++ yr ++ dash
  ++ compactAuthors (authors x) ++ lit " [" ++ src ++ lit "]" ++ doi
  ++ (if truthy url then dash ++ url else []).

Definition ellipsis : jsstring := [8230%N].

(** The abstract as a block shows it: trimmed, and cut after 1500 code
    units with the ellipsis appended. *)
Definition clip (a : option jsstring) : jsstring :=
  let abs := trim (match a with Some s => or_else s [] | None => [] end) in
  if (1500 <? List.length abs)%nat then firstn 1500 abs ++ ellipsis
  else abs.

Definition abstractLabel : jsstring := [10%N] ++ lit "Abstract: ".

Definition mkBlock (x : LitItem) (idx : nat) : jsstring :=
  let header := mkCiteLine x idx in
  let abs := clip (abstract_ x) in
  header ++ abstractLabel ++ or_else abs (lit "N/A").

(** The first loop: the block of every item, numbered from [idx]. *)
Fixpoint mkBlocks (idx : nat) (items : list LitItem) : list jsstring :=
  match items with
  | [] => []
  | x :: r => mkBlock x idx :: mkBlocks (S idx) r
  end.

Definition sep : jsstring := [10%N; 10%N].

(** The second loop, from the current [out]: it breaks at the first block
    with which [out + '\n\n' + b] is longer than [maxChars]. *)
Fixpoint pack (maxChars : Z) (out : jsstring) (blocks : list jsstring)
  : jsstring :=
  match blocks with
  | [] => out
  | b :: r =>
      if (maxChars <? Z.of_nat (List.length (out ++ sep ++ b)))%Z then out
      else pack maxChars (out ++ (if truthy out then sep else []) ++ b) r
  end.

Definition mkGeminiContext (items : list LitItem) (maxChars : Z)
  : jsstring :=
  pack maxChars [] (mkBlocks 0 items).

End Workspace.


(** * Predicates and inputs of the properties *)

Import Literature.

Local Open Scope Z_scope.

(** The keys of the map, in insertion order. *)
Definition keys (m : KeyMap) : list jsstring := List.map fst m.

(** Every key is stored once, and every record sits under its own key. *)
Definition wellKeyed (m : KeyMap) : Prop :=
  NoDup (keys m) /\ Forall (fun e => makeKey (snd e) = fst e) m.

(** Descending order of the scored entries. *)
Definition desc (a b : Scored) : Prop := (score b <= score a)%R.

(** Descending order of the scores of records. *)
Definition descending (nowYear : Z) (x y : LitItem) : Prop :=
  (scoreOf nowYear y <= scoreOf nowYear x)%R.

(** [a] stands before [b] in the list. *)
Definition before {A : Type} (l : list A) (a b : A) : Prop :=
  exists l1 l2 l3 : list A, l = l1 ++ a :: l2 ++ b :: l3.


(** The entries, and the records, whose score is [v]. *)
Definition scored_at (v : R) (s : Scored) : bool :=
  if Req_dec_T (score s) v then true else false.

Definition scores_at (nowYear : Z) (v : R) (x : LitItem) : bool :=
  if Req_dec_T (scoreOf nowYear x) v then true else false.

(** ** Records used as concrete inputs *)

(** A record of which only the fields the pipeline reads are set. *)
Definition paper (src : Source) (t : string) (y : option Z)
    (abs d : option string) (c : option Z) : LitItem :=
  {| id := lit t; source := src; title := lit t; year := y;
     authors := None; abstract_ := option_map lit abs;
     doi := option_map lit d; url := None; citationCount := c;
     externalIds := None |}.

(** Two records of one work (same DOI): the stored one is cited but has no
    abstract, the incoming one has an abstract and no citation count. *)
Definition cited_bare : LitItem :=
  paper crossref "Gene editing" (Some 2020) None (Some "10.1/x"%string)
    (Some 5).

Definition uncited_abstract : LitItem :=
  paper s2 "Gene editing" (Some 2020) (Some "We edit genes."%string)
    (Some "10.1/x"%string) None.

(** A record whose abstract, 1600 letters between two spaces, is longer than
    a block shows. *)
Definition wordy : LitItem :=
  {| id := lit "w1"; source := crossref; title := lit "Long abstract";
     year := Some 2021; authors := None;
     abstract_ := Some (32%N :: repeat 97%N 1600 ++ [32%N]);
     doi := None; url := None; citationCount := None;
     externalIds := None |}.

(** A record with a blank title and no identifier. *)
Definition blank : LitItem := paper arxiv "" None None None None.





(** All three adapters time out on the query ["crispr"]. *)
Definition timesOut (q : jsstring) (n : Z) : Settled := rejected (lit "timeout").

(** An upstream that finds nothing, and one that must not be asked. *)
Definition findsNothing (q : jsstring) : PubMed.Outcome (option jsstring) :=
  PubMed.returns None.

Definition unreachable (q : jsstring) : PubMed.Outcome (option jsstring) :=
  PubMed.throws (lit "esearch was called").

Definition noSummary (p : jsstring) : PubMed.Outcome unit := PubMed.returns tt.

Definition noAbstract (p : jsstring) : PubMed.Outcome jsstring :=
  PubMed.returns [].

Definition pmidOnly (p : jsstring) (s : unit) (ab : jsstring)
  : PubMed.Outcome jsstring := PubMed.returns p.

(** * Further predicates of the properties *)

(** The code units of ASCII, on which [toLowerCase] is the case mapping of
    JavaScript. *)
Definition is_ascii (c : N) : bool := (c <? 128)%N.

(** The code units a normalized title is made of: [a-z], [0-9], [_] and the
    space. *)
Definition is_key_char (c : N) : bool :=
  in_range 97 122 c || is_digit c || (c =? 95)%N || (c =? 32)%N.

(** The four spellings of the DOI resolver prefix. *)
Definition resolverPrefixes : list jsstring :=
  [lit "http://doi.org/"; lit "https://doi.org/"; lit "http://dx.doi.org/";
   lit "https://dx.doi.org/"].

(** The keys of a list in the order of their first occurrence; [seen] holds
    the keys met so far. *)
Fixpoint firstSeen (seen l : list jsstring) : list jsstring :=
  match l with
  | [] => []
  | k :: r =>
      if existsb (str_eqb k) seen then firstSeen seen r
      else k :: firstSeen (seen ++ [k]) r
  end.

(** A record with a non-empty abstract. *)
Definition hasAbstract (x : LitItem) : bool := truthy_opt (abstract_ x).

(** A second record with a blank title and no identifier, this one with an
    abstract. *)
Definition blank_abstract : LitItem :=
  paper s2 "" None (Some "An abstract."%string) None None.

(** The messages of the adapters that were rejected, in the order the route
    asks for them. *)
Definition rejectionMessages (settled : list Settled) : list jsstring :=
  flat_map (fun r => match r with rejected m => [m] | fulfilled _ => [] end)
    settled.

(** A summary call that fails. *)
(** A search that returns the id of a paper. *)
Definition findsPaper (q : jsstring) : PubMed.Outcome (option jsstring) :=
  PubMed.returns (Some (lit "31015831")).

Definition summaryDown (p : jsstring) : PubMed.Outcome unit :=
  PubMed.throws (lit "HTTP 502: Bad Gateway").

(** * More of the code *)

(** ** What the routes read from a fetched response *)

Module Http.

(** A response as the guards read it: [res.status], the [content-type]
    header ([null] when absent) and the body text. *)
Record HttpResponse := {
  statusCode : Z;
  contentType : option jsstring;
  text : jsstring
}.

(** [res.ok]: the status is in the range 200-299. *)
Definition ok (res : HttpResponse) : bool :=
  ((200 <=? statusCode res) && (statusCode res <=? 299))%Z.

(** A pattern of ASCII code units at the head of the input, compared
    without regard to letter case (the [i] flag). *)
Fixpoint startsWithCI (p s : jsstring) : bool :=
  match p, s with
  | [], _ => true
  | _ :: _, [] => false
  | a :: p', b :: s' => (upper a =? upper b)%N && startsWithCI p' s'
  end.

(** [/p/i.test(s)] for a literal [p]. *)
Fixpoint containsCI (p s : jsstring) : bool :=
  startsWithCI p s
  || match s with [] => false | _ :: r => containsCI p r end.

(** [/<!doctype|<html/i.test(s)] *)
Definition looksLikeHTML (s : jsstring) : bool :=
  containsCI (lit "<!doctype") s || containsCI (lit "<html") s.

End Http.

(** ** The adapters' helpers of the literature route *)

Module Adapters.

Import Http.

Definition protoKey : jsstring := lit "__proto__".

(** [out[k] = v] on a plain object: the value of a key that is present is
    replaced, a new key is added. *)
Fixpoint assign (k v : jsstring) (o : list (jsstring * jsstring))
  : list (jsstring * jsstring) :=
  match o with
  | [] => [(k, v)]
  | (k', v') :: r =>
      if str_eqb k k' then (k, v) :: r else (k', v') :: assign k v r
  end.

(** One iteration of the loop of [buildExternalIds]. Writing a string to
    [__proto__] adds no property. *)
Definition addPart (out : list (jsstring * jsstring))
    (part : jsstring * option jsstring) : list (jsstring * jsstring) :=
  match snd part with
  | Some v =>
      if truthy (trim v)
      then if str_eqb (fst part) protoKey then out
           else assign (fst part) (trim v) out
      else out
  | None => out
  end.

Definition buildExternalIds (parts : list (jsstring * option jsstring))
  : option (list (jsstring * jsstring)) :=
  match fold_left addPart parts [] with
  | [] => None
  | out => Some out
  end.

(** A part that the loop writes: its value is a string with more than
    whitespace in it, and its key is not [__proto__]. *)
Definition writes (part : jsstring * option jsstring) : bool :=
  match snd part with
  | Some v => truthy (trim v) && negb (str_eqb (fst part) protoKey)
  | None => false
  end.

Section Guards.

(** [JSON.parse]: the value, or [None] when it throws. *)
Variable J : Type.
Variable JSON_parse : jsstring -> option J.

(** [`[${res.status}] ${text.slice(0, 300)}`] *)
Definition statusMessage (res : HttpResponse) : jsstring :=
  lit "[" ++ ofZ (statusCode res) ++ lit "] " ++ firstn 300 (text res).

(** [safeFetchText], from the settled [withTimeout(fetch(...))]: a
    rejected fetch (a timeout among them) is thrown on. *)
Definition safeFetchText (fetched : PubMed.Outcome HttpResponse)
  : PubMed.Outcome jsstring :=
  PubMed.bind fetched (fun res =>
    if negb (ok res) then PubMed.throws (statusMessage res)
    else PubMed.returns (text res)).

Definition parseOrInvalid (s : jsstring) : PubMed.Outcome J :=
  match JSON_parse s with
  | Some v => PubMed.returns v
  | None => PubMed.throws (lit "Invalid JSON")
  end.

Definition safeFetchJSON (fetched : PubMed.Outcome HttpResponse)
  : PubMed.Outcome J :=
  PubMed.bind fetched (fun res =>
    let ct := orElse (contentType res) [] in
    if negb (ok res) then PubMed.throws (statusMessage res)
    else if negb (containsCI (lit "json") ct) then
      if looksLikeHTML (text res)
      then PubMed.throws (lit "Non-JSON (HTML) response")
      else parseOrInvalid (text res)
    else parseOrInvalid (text res)).

End Guards.

End Adapters.

(** ** The helpers of the PubMed route *)

Module Eutils.

Import Http.

Section Guards.

Variable J : Type.
Variable JSON_parse : jsstring -> option J.

(** [`HTTP ${res.status}: ${raw.slice(0, 300)}`] *)
Definition httpMessage (res : HttpResponse) : jsstring :=
  lit "HTTP " ++ ofZ (statusCode res) ++ lit ": " ++ firstn 300 (text res).

Definition htmlMessage : jsstring :=
  lit "NCBI returned HTML (likely an error page)".

Definition parseOrInvalid (s : jsstring) : PubMed.Outcome J :=
  match JSON_parse s with
  | Some v => PubMed.returns v
  | None => PubMed.throws (lit "Response not valid JSON")
  end.

Definition fetchJsonGuard (fetched : PubMed.Outcome HttpResponse)
  : PubMed.Outcome J :=
  PubMed.bind fetched (fun res =>
    let ct := orElse (contentType res) [] in
    let raw := text res in
    if negb (ok res) then PubMed.throws (httpMessage res)
    else if negb (containsCI (lit "application/json") ct) then
      if looksLikeHTML raw then PubMed.throws htmlMessage
      else parseOrInvalid raw
    else parseOrInvalid raw).

Definition fetchTextGuard (fetched : PubMed.Outcome HttpResponse)
  : PubMed.Outcome jsstring :=
  PubMed.bind fetched (fun res =>
    let raw := text res in
    if negb (ok res) then PubMed.throws (httpMessage res)
    else if looksLikeHTML raw then PubMed.throws htmlMessage
    else PubMed.returns raw).

End Guards.

(** LineTerminator code units: where [^] matches under the [m] flag. *)
Definition is_lineterm (c : N) : bool :=
  (c =? 10)%N || (c =? 13)%N || (c =? 8232)%N || (c =? 8233)%N.

(** [A-Z] *)
Definition is_upper (c : N) : bool := in_range 65 90 c.

Definition startsWith (p s : jsstring) : bool :=
  match after p s with Some _ => true | None => false end.

(** [medlineText.split(/\n(?=PMID- )/)]: the text is cut at every line feed
    that ["PMID- "] follows; [cur] is the piece in hand, reversed. *)
Fixpoint splitRecords (cur s : jsstring) : list jsstring :=
  match s with
  | [] => [rev cur]
  | c :: r =>
      if (c =? 10)%N && startsWith (lit "PMID- ") r
      then rev cur :: splitRecords [] r
      else splitRecords (c :: cur) r
  end.

(** [/^PMID-\s+(\d+)/] at the head of the input: the digits captured. The
    greedy [\s+] takes all the whitespace and [\d+] all the digits; a
    shorter run of whitespace would leave whitespace where a digit has to
    stand. *)
Definition pmidHere (s : jsstring) : option jsstring :=
  match after (lit "PMID-") s with
  | Some r =>
      match takeWhile is_ws r, takeWhile is_digit (dropWhile is_ws r) with
      | _ :: _, d :: ds => Some (d :: ds)
      | _, _ => None
      end
  | None => None
  end.

(** [(rec.match(/^PMID-\s+(\d+)/m) || [])[1]]: the first match from the
    left, at the start of the input or behind a line terminator. *)
Fixpoint findPmid (lineStart : bool) (s : jsstring) : option jsstring :=
  match (if lineStart then pmidHere s else None) with
  | Some p => Some p
  | None =>
      match s with
      | [] => None
      | c :: r => findPmid (is_lineterm c) r
      end
  end.

(** [rec.split('\n')] *)
Fixpoint splitLines (cur s : jsstring) : list jsstring :=
  match s with
  | [] => [rev cur]
  | c :: r =>
      if (c =? 10)%N then rev cur :: splitLines [] r
      else splitLines (c :: cur) r
  end.

(** [\s+-\s+] at the head of the input: what is left behind the match. *)
Definition fieldTail (s : jsstring) : option jsstring :=
  match takeWhile is_ws s, dropWhile is_ws s with
  | _ :: _, 45%N :: r =>
      match takeWhile is_ws r with
      | _ :: _ => Some (dropWhile is_ws r)
      | [] => None
      end
  | _, _ => None
  end.

(** [/^AB\s+-\s+/]: [line.replace(/^AB\s+-\s+/, '')] when it matches. *)
Definition abLine (line : jsstring) : option jsstring :=
  match after (lit "AB") line with
  | Some r => fieldTail r
  | None => None
  end.

(** [/^[A-Z]{2,4}\s+-\s+/.test(line)]: the capitals at the head of the line
    are two to four, since behind them whitespace has to stand. *)
Definition fieldLine (line : jsstring) : bool :=
  let n := List.length (takeWhile is_upper line) in
  (2 <=? n)%nat && (n <=? 4)%nat
  && match fieldTail (dropWhile is_upper line) with
     | Some _ => true
     | None => false
     end.

(** One line of the inner loop, on [inAB] and [abstractLines]. *)
Definition lineStep (st : bool * list jsstring) (line : jsstring)
  : bool * list jsstring :=
  let (inAB, abstractLines) := st in
  match abLine line with
  | Some rest => (true, abstractLines ++ [rest])
  | None =>
      if inAB && startsWith (lit "  ") line && negb (fieldLine line)
      then (inAB, abstractLines ++ [trim line])
      else if inAB && fieldLine line then (false, abstractLines)
      else (inAB, abstractLines)
  end.

(** [abstractLines.join(' ').trim()] of a record. *)
Definition abstractOf (rec : jsstring) : jsstring :=
  trim (join (lit " ")
          (snd (fold_left lineStep (splitLines [] rec) (false, [])))).

(** One record of the outer loop, on [map]. *)
Definition recordStep (map : list (jsstring * jsstring)) (rec : jsstring)
  : list (jsstring * jsstring) :=
  match findPmid true rec with
  | None => map
  | Some pmid =>
      let abstract := abstractOf rec in
      if truthy abstract then Adapters.assign pmid abstract map else map
  end.

(** The object [map] is the list of its entries in the order in which they
    were written. The route only looks it up by key; the order in which
    JavaScript lists the keys of an object (integer-like keys first,
    ascending) is not modelled. *)
Definition parseAbstractsByPMID (medlineText : jsstring)
  : list (jsstring * jsstring) :=
  fold_left recordStep (splitRecords [] medlineText) [].

End Eutils.

(** A MEDLINE text of two records; the line feed is code unit 10. *)
Definition medlineSample : jsstring :=
  lit "PMID- 123" ++ [10%N] ++ lit "TI  - A title" ++ [10%N]
  ++ lit "AB  - First line of" ++ [10%N] ++ lit "      the abstract. "
  ++ [10%N] ++ lit "FAU - Doe J" ++ [10%N] ++ lit "      not abstract"
  ++ [10%N] ++ lit "PMID- 456" ++ [10%N] ++ lit "AB  - Other." ++ [10%N].

(** A response of a provider that limits the rate, and a parser that
    accepts nothing. *)
Definition tooManyRequests : Http.HttpResponse :=
  {| Http.statusCode := 429; Http.contentType := Some (lit "text/html");
     Http.text := lit "<html>Too Many Requests</html>" |}.

Definition parsesNothing (s : jsstring) : option unit := None.

(** An error page that is sent with status 200. *)
Definition errorPage : Http.HttpResponse :=
  {| Http.statusCode := 200; Http.contentType := Some (lit "text/html");
     Http.text := lit "<!DOCTYPE html><HTML>busy</HTML>" |}.

(** ** The cleaner of the AI route *)

Module Cleaner.

Import Eutils.

(** Behind an opening [**]: a closing [**] follows before the line ends
    ([.] matches no line terminator). *)
Fixpoint closes2 (s : jsstring) : bool :=
  match s with
  | [] => false
  | a :: r =>
      match r with
      | [] => false
      | b :: _ =>
          if (a =? 42)%N && (b =? 42)%N then true
          else if is_lineterm a then false
          else closes2 r
      end
  end.

(** [.replace(/\*\*(.*?)\*\*/g, '$1')]: an opening [**] that is closed on
    its line is dropped with the first [**] that closes it; [inside] tells
    that the scan is between the two. *)
Fixpoint unbold (inside : bool) (s : jsstring) : jsstring :=
  match s with
  | [] => []
  | a :: r =>
      match r with
      | [] => [a]
      | b :: r' =>
          if (a =? 42)%N && (b =? 42)%N then
            if inside then unbold false r'
            else if closes2 r' then unbold true r'
            else a :: unbold false r
          else a :: unbold inside r
      end
  end.

(** Behind an opening [*]: a closing [*] follows before the line ends. *)
Fixpoint closes1 (s : jsstring) : bool :=
  match s with
  | [] => false
  | a :: r =>
      if (a =? 42)%N then true
      else if is_lineterm a then false
      else closes1 r
  end.

(** [.replace(/(^|[\s(])\*(.*?)\*/g, '$1$2')]: a [*] at the start of the
    string, or behind whitespace or [(], that is closed on its line is
    dropped with the first [*] that closes it. *)
Fixpoint unitalic (atStart inside : bool) (s : jsstring) : jsstring :=
  match s with
  | [] => []
  | a :: r =>
      if inside then
        if (a =? 42)%N then unitalic false false r
        else a :: unitalic false true r
      else if atStart && (a =? 42)%N && closes1 r then unitalic false true r
      else
        match r with
        | [] => [a]
        | b :: r' =>
            if (is_ws a || (a =? 40)%N) && (b =? 42)%N && closes1 r'
            then a :: unitalic false true r'
            else a :: unitalic false false r
        end
  end.

(** [/^\s*\*\s+/] at the start of a line: what is left behind the match,
    and whether the match ends with a line terminator, so that a line
    starts behind it. *)
Definition bulletHere (s : jsstring) : option (jsstring * bool) :=
  match dropWhile is_ws s with
  | 42%N :: r =>
      match takeWhile is_ws r with
      | [] => None
      | w :: ws => Some (dropWhile is_ws r, is_lineterm (last (w :: ws) 0%N))
      end
  | _ => None
  end.

(** [.replace(/^\s*\*\s+/gm, '- ')]; every step consumes a code unit, so
    the length of the input is fuel enough. *)
Fixpoint bulletsFrom (fuel : nat) (lineStart : bool) (s : jsstring)
  : jsstring :=
  match fuel with
  | O => s
  | S n =>
      match s with
      | [] => []
      | a :: r =>
          match (if lineStart then bulletHere s else None) with
          | Some (rest, newline) => lit "- " ++ bulletsFrom n newline rest
          | None => a :: bulletsFrom n (is_lineterm a) r
          end
      end
  end.

Definition bullets (s : jsstring) : jsstring :=
  bulletsFrom (List.length s) true s.

(** [.replace(/\*/g, '')] *)
Definition dropStars (s : jsstring) : jsstring :=
  filter (fun c => negb (c =? 42)%N) s.

Definition cleanNoAsterisk (s : jsstring) : jsstring :=
  trim (dropStars (bullets (unitalic true false (unbold false s)))).

End Cleaner.

(** ** Usage metering of the workspace page *)

Module Usage.

Inductive PlanTier := free | pro | team.
Inductive UsageKind := ai_messages | lit_searches | analyses.

Definition PLAN_LIMITS (tier : PlanTier) (k : UsageKind) : Z :=
  match tier, k with
  | free, ai_messages => 150 | free, lit_searches => 50
  | free, analyses => 10
  | pro, ai_messages => 2000 | pro, lit_searches => 500
  | pro, analyses => 200
  | team, ai_messages => 10000 | team, lit_searches => 2500
  | team, analyses => 1000
  end%Z.

(** The [used] state: a number for each kind. *)
Definition Used := UsageKind -> Z.

Definition remaining (tier : PlanTier) (used : Used) (k : UsageKind) : Z :=
  Z.max 0 (PLAN_LIMITS tier k - used k).

Definition exceeded (tier : PlanTier) (used : Used) (k : UsageKind) : bool :=
  (remaining tier used k <=? 0)%Z.

Definition same_kind (a b : UsageKind) : bool :=
  match a, b with
  | ai_messages, ai_messages | lit_searches, lit_searches
  | analyses, analyses => true
  | _, _ => false
  end.

(** What [increment] does to the state: nothing without a user; else the
    amount is added to the counter of the kind, whether the remote update
    succeeded or not. *)
Definition increment (signedIn : bool) (used : Used) (kind : UsageKind)
    (amount : Z) : Used :=
  if signedIn
  then fun k => if same_kind k kind then (used k + amount)%Z else used k
  else used.

(** The state of a period without usage. *)
Definition unused : Used := fun _ => 0%Z.

End Usage.

(** ** The PubMed request of the workspace page *)

Module Client.

Inductive Mode := byQuery | byPmid.

(** The body that [fetchPubMed] posts; on its way through JSON it stays as
    it is. *)
Definition fetchPubMedBody (mode : Mode) (pmid q : jsstring)
  : PubMed.Request :=
  match mode with
  | byPmid =>
      if truthy (trim pmid)
      then {| PubMed.pmid := Some (trim pmid); PubMed.query := None |}
      else {| PubMed.pmid := None;
              PubMed.query := Some (or_else (trim q) (lit "cancer")) |}
  | byQuery =>
      {| PubMed.pmid := None;
         PubMed.query := Some (or_else (trim q) (lit "cancer")) |}
  end.

End Client.

(** * Properties *)

(** ** Identifier normalizers *)

(** C7: [normDOI("https://doi.org/10.1/ABC")] is ["10.1/abc"], [normDOI] of
    the empty string and of [undefined] is [undefined], and
    [normArxivId("arXiv:1234.5678v3")] is ["1234.5678"]. *)
Theorem normalizer_equations :
  normDOI (Some (lit "https://doi.org/10.1/ABC")) = Some (lit "10.1/abc")
  /\ normDOI (Some []) = None
  /\ normDOI None = None
  /\ normArxivId (Some (lit "arXiv:1234.5678v3")) = Some (lit "1234.5678").
Proof. repeat split; vm_compute; reflexivity. Qed.

(** The other spellings of the resolver prefix go the same way, and only a
    version suffix that ends the identifier is removed. *)
Example normDOI_dx :
  normDOI (Some (lit " http://dx.doi.org/10.1038/XYZ "))
  = Some (lit "10.1038/xyz").
Proof. vm_compute; reflexivity. Qed.

Example normDOI_bare : normDOI (Some (lit "10.1038/XYZ")) = Some (lit "10.1038/xyz").
Proof. vm_compute; reflexivity. Qed.

Example normArxivId_inner_v :
  normArxivId (Some (lit "ARXIV:hep-th/v1x9901001V12"))
  = Some (lit "hep-th/v1x9901001").
Proof. vm_compute; reflexivity. Qed.

Example normArxivId_no_version :
  normArxivId (Some (lit "2101.00001")) = Some (lit "2101.00001").
Proof. vm_compute; reflexivity. Qed.

Example normTitle_example :
  normTitle (lit "  CRISPR-Cas9:   A  Review! ") = lit "crisprcas9 a review".
Proof. vm_compute; reflexivity. Qed.

Example normArxivId_edge_cases :
  normArxivId (Some (lit "1234.5678v")) = Some (lit "1234.5678v")
  /\ normArxivId (Some (lit "v3")) = None
  /\ normArxivId (Some (lit "abc12")) = Some (lit "abc12")
  /\ normArxivId (Some (lit "   ")) = None.
Proof. repeat split; vm_compute; reflexivity. Qed.

(** A normalizer never returns the empty string. *)
Lemma normDOI_truthy (d : option jsstring) (r : jsstring) :
  normDOI d = Some r -> truthy r = true.
Proof.
  unfold normDOI. destruct d as [raw|]; [|discriminate].
  destruct (negb (truthy raw)); [discriminate|].
  destruct (truthy (stripPrefix doiPrefix (toLowerCase (trim raw)))) eqn:E;
    [|discriminate].
  intros H; injection H as <-. exact E.
Qed.

(** A normalized DOI has no upper-case ASCII letter: the prefix match only
    removes code units from the lowered string. *)
Lemma lower_not_upper (c : N) : in_range 65 90 (lower c) = false.
Proof.
  unfold lower. destruct (in_range 65 90 c) eqn:E; [|exact E].
  unfold in_range in *. apply andb_true_iff in E. destruct E as [E1 E2].
  apply N.leb_le in E1, E2. apply andb_false_iff. right.
  apply N.leb_gt. lia.
Qed.

Lemma after_suffix (p s r : jsstring) :
  after p s = Some r -> exists pre, s = pre ++ r.
Proof.
  revert s. induction p as [|a p IH]; intros s; simpl.
  - intros H. injection H as <-. now exists [].
  - destruct s as [|b s]; [discriminate|].
    destruct (a =? b)%N; [|discriminate].
    intros H. destruct (IH _ H) as [pre ->]. now exists (b :: pre).
Qed.

Lemma andThen_suffix (m k : jsstring -> option jsstring) :
  (forall s r, m s = Some r -> exists pre, s = pre ++ r) ->
  (forall s r, k s = Some r -> exists pre, s = pre ++ r) ->
  forall s r, andThen m k s = Some r -> exists pre, s = pre ++ r.
Proof.
  intros Hm Hk s r. unfold andThen. destruct (m s) as [t|] eqn:E;
    [|discriminate].
  intros H. destruct (Hm _ _ E) as [p1 ->]. destruct (Hk _ _ H) as [p2 ->].
  exists (p1 ++ p2). now rewrite app_assoc.
Qed.

Lemma optional_suffix (m k : jsstring -> option jsstring) :
  (forall s r, m s = Some r -> exists pre, s = pre ++ r) ->
  (forall s r, k s = Some r -> exists pre, s = pre ++ r) ->
  forall s r, optional m k s = Some r -> exists pre, s = pre ++ r.
Proof.
  intros Hm Hk s r. unfold optional.
  destruct (andThen m k s) as [t|] eqn:E.
  - intros H. injection H as <-. exact (andThen_suffix m k Hm Hk _ _ E).
  - apply Hk.
Qed.

Lemma doiPrefix_suffix (s r : jsstring) :
  doiPrefix s = Some r -> exists pre, s = pre ++ r.
Proof.
  unfold doiPrefix.
  repeat first [ apply andThen_suffix | apply optional_suffix
               | intros ? ?; apply after_suffix ].
Qed.

Lemma normDOI_lowercase (d : option jsstring) (r : jsstring) :
  normDOI d = Some r -> Forall (fun c => in_range 65 90 c = false) r.
Proof.
  unfold normDOI. destruct d as [raw|]; [|discriminate].
  destruct (negb (truthy raw)); [discriminate|].
  set (low := toLowerCase (trim raw)).
  assert (Hlow : Forall (fun c => in_range 65 90 c = false) low).
  { unfold low, toLowerCase. apply Forall_forall. intros c Hc.
    apply in_map_iff in Hc. destruct Hc as (c0 & <- & _).
    apply lower_not_upper. }
  destruct (truthy (stripPrefix doiPrefix low)); [|discriminate].
  intros H. injection H as <-. unfold stripPrefix.
  destruct (doiPrefix low) as [t|] eqn:E; [|exact Hlow].
  destruct (doiPrefix_suffix _ _ E) as [pre Hpre]. rewrite Hpre in Hlow.
  apply Forall_app in Hlow. tauto.
Qed.

(** ** Identity key *)

Lemma truthy_app_l (a b : jsstring) : truthy a = true -> truthy (a ++ b) = true.
Proof. destruct a; simpl; [discriminate | reflexivity]. Qed.

Lemma or_else_truthy (a b : jsstring) :
  truthy b = true -> truthy (or_else a b) = true.
Proof. unfold or_else. destruct (truthy a) eqn:E; auto. Qed.

(** The title candidate always carries its [t:] tag, so the key is never
    the empty string. *)
Lemma makeKey_truthy (x : LitItem) : truthy (makeKey x) = true.
Proof.
  unfold makeKey. do 2 apply or_else_truthy. reflexivity.
Qed.

(** The candidates in their order of priority. *)
Lemma makeKey_doi (x : LitItem) (d : jsstring) :
  doi x = Some d -> truthy d = true -> makeKey x = lit "doi:" ++ d.
Proof.
  intros Hd Ht. unfold makeKey. rewrite Hd, Ht. reflexivity.
Qed.

Lemma makeKey_arxiv (x : LitItem) (a : jsstring) :
  truthy_opt (doi x) = false -> arXivOf x = Some a -> truthy a = true ->
  makeKey x = lit "arxiv:" ++ a.
Proof.
  intros Hd Ha Ht. unfold makeKey. rewrite Ha, Ht.
  destruct (doi x) as [d|]; simpl in Hd; [rewrite Hd|]; reflexivity.
Qed.

Lemma makeKey_title (x : LitItem) :
  truthy_opt (doi x) = false -> truthy_opt (arXivOf x) = false ->
  makeKey x
  = lit "t:" ++ normTitle (title x) ++ lit "|"
    ++ (if truthyZ (year x)
        then lit "y:" ++ ofZ (match year x with Some n => n | None => 0 end)
        else []).
Proof.
  intros Hd Ha. unfold makeKey.
  destruct (doi x) as [d|]; simpl in Hd; [rewrite Hd|];
    (destruct (arXivOf x) as [a|]; simpl in Ha; [rewrite Ha|]);
    destruct (year x) as [n|]; reflexivity.
Qed.

(** C2: a record with a blank title and no identifier gets the key ["t:|"],
    which is not empty, so the loop does not skip it: it is in the merged
    output. *)
Theorem blank_record_is_kept :
  makeKey blank = lit "t:|"
  /\ truthy (makeKey blank) = true
  /\ dedupe [blank] = [blank]
  /\ items (dedupeAndRank [blank] 2025 12) = [blank].
Proof. repeat split; vm_compute; reflexivity. Qed.

(** ** The key map *)

Lemma str_eqb_refl (k : jsstring) : str_eqb k k = true.
Proof. unfold str_eqb. destruct (str_eq_dec k k); congruence. Qed.

Lemma str_eqb_neq (k k' : jsstring) : k <> k' -> str_eqb k k' = false.
Proof. unfold str_eqb. destruct (str_eq_dec k k'); congruence. Qed.

Lemma str_eqb_true (k k' : jsstring) : str_eqb k k' = true -> k = k'.
Proof. unfold str_eqb. destruct (str_eq_dec k k'); congruence. Qed.

Lemma get_set_same (k : jsstring) (v : LitItem) (m : KeyMap) :
  get k (set k v m) = Some v.
Proof.
  induction m as [|[k' v'] m IH]; simpl.
  - now rewrite str_eqb_refl.
  - destruct (str_eqb k k') eqn:E; simpl.
    + now rewrite str_eqb_refl.
    + now rewrite E.
Qed.

Lemma get_fresh (k : jsstring) (m : KeyMap) : ~ In k (keys m) -> get k m = None.
Proof.
  induction m as [|[k' v'] m IH]; simpl; intros H; [reflexivity|].
  rewrite str_eqb_neq by intuition congruence. apply IH. intuition.
Qed.

Lemma get_some_key (k : jsstring) (v : LitItem) (m : KeyMap) :
  get k m = Some v -> In (k, v) m.
Proof.
  induction m as [|[k' v'] m IH]; simpl; [discriminate|].
  destruct (str_eqb k k') eqn:E.
  - intros H. injection H as <-. apply str_eqb_true in E. subst. now left.
  - intros H. right. now apply IH.
Qed.

Lemma set_fresh (k : jsstring) (v : LitItem) (m : KeyMap) :
  ~ In k (keys m) -> set k v m = m ++ [(k, v)].
Proof.
  induction m as [|[k' v'] m IH]; simpl; intros H; [reflexivity|].
  rewrite str_eqb_neq by intuition congruence. f_equal. apply IH. intuition.
Qed.

(** Replacing the value of a present key leaves the keys and their order as
    they are. *)
Lemma keys_set_present (k : jsstring) (v : LitItem) (m : KeyMap) :
  In k (keys m) -> keys (set k v m) = keys m.
Proof.
  induction m as [|[k' v'] m IH]; simpl; [tauto|].
  destruct (str_eqb k k') eqn:E; simpl.
  - apply str_eqb_true in E. now subst.
  - intros [H|H]; [subst; now rewrite str_eqb_refl in E|].
    f_equal. now apply IH.
Qed.

Lemma in_set (k : jsstring) (v : LitItem) (m : KeyMap) (e : jsstring * LitItem) :
  In e (set k v m) -> e = (k, v) \/ In e m.
Proof.
  induction m as [|[k' v'] m IH]; simpl.
  - intuition.
  - destruct (str_eqb k k'); simpl; intuition.
Qed.

(** ** Choice of the representative *)

Lemma pick_either (it existing : LitItem) :
  pick it existing = it \/ pick it existing = existing.
Proof.
  unfold pick.
  destruct (count existing <? count it); auto.
  destruct (truthy_opt (abstract_ existing)); auto.
  destruct (truthy_opt (abstract_ it)); auto.
Qed.

(** C1, as the code has it: on a collision the loop stores [pick it
    existing]. The incoming record replaces the stored one when its citation
    count is strictly higher. When it is not (the counts are tied, or the
    stored record has the higher count), the stored record stays if it has a
    non-empty abstract; else the incoming record is taken if it has one; else
    the stored record stays. *)
Theorem collision_representative (byKey : KeyMap) (it existing : LitItem)
    (Hcollide : get (makeKey it) byKey = Some existing) :
  get (makeKey it) (step byKey it) = Some (pick it existing)
  /\ (count existing < count it -> pick it existing = it)
  /\ (count it <= count existing ->
      truthy_opt (abstract_ existing) = true -> pick it existing = existing)
  /\ (count it <= count existing ->
      truthy_opt (abstract_ existing) = false ->
      truthy_opt (abstract_ it) = true -> pick it existing = it)
  /\ (count it <= count existing ->
      truthy_opt (abstract_ existing) = false ->
      truthy_opt (abstract_ it) = false -> pick it existing = existing).
Proof.
  split.
  - unfold step. rewrite makeKey_truthy. simpl. rewrite Hcollide.
    apply get_set_same.
  - unfold pick. repeat split.
    + intros H. apply Z.ltb_lt in H. now rewrite H.
    + intros H Ha. apply Z.ltb_ge in H. now rewrite H, Ha.
    + intros H Ha Hb. apply Z.ltb_ge in H. now rewrite H, Ha, Hb.
    + intros H Ha Hb. apply Z.ltb_ge in H. now rewrite H, Ha, Hb.
Qed.

(** The stored record has the same identity, no abstract and five
    citations; the incoming one has an abstract and no count. *)
Lemma collision_representative_witness :
  get (makeKey uncited_abstract) (step [(makeKey cited_bare, cited_bare)]
                                    uncited_abstract)
  = Some (pick uncited_abstract cited_bare)
  /\ pick uncited_abstract cited_bare = uncited_abstract.
Proof.
  assert (H : get (makeKey uncited_abstract)
                [(makeKey cited_bare, cited_bare)] = Some cited_bare)
    by (vm_compute; reflexivity).
  destruct (collision_representative _ _ _ H) as (H1 & _ & _ & H4 & _).
  split; [exact H1|].
  apply H4; vm_compute; [discriminate | reflexivity | reflexivity].
Defined.

(** C1, as the specification words it, fails: the stored record has the
    strictly higher citation count, and still the incoming record, which has
    an abstract, becomes the representative of the group. *)
Lemma higher_count_not_always_kept :
  makeKey uncited_abstract = makeKey cited_bare
  /\ count uncited_abstract < count cited_bare
  /\ pick uncited_abstract cited_bare <> cited_bare
  /\ dedupe [cited_bare; uncited_abstract] = [uncited_abstract].
Proof.
  repeat split; try (vm_compute; reflexivity).
  vm_compute. discriminate.
Qed.

(** ** Recency *)

(** C6: with the year of the record present (a year that is not [0], which
    JavaScript reads as absent), the recency score is 2 two years back, 1
    three years back and 0 six years back; a record with no year has age 10
    and recency 0. *)
Theorem recency_boundary (nowYear : Z) (x : LitItem) :
  (forall y : Z, year x = Some y -> y <> 0 ->
     (y = nowYear - 2 -> recency nowYear x = 2)
     /\ (y = nowYear - 3 -> recency nowYear x = 1)
     /\ (y = nowYear - 6 -> recency nowYear x = 0))
  /\ (year x = None -> age nowYear x = 10 /\ recency nowYear x = 0).
Proof.
  split.
  - intros y Hy Hnz.
    assert (Hage : age nowYear x = nowYear - y).
    { unfold age. rewrite Hy. simpl.
      destruct (y =? 0) eqn:E; [apply Z.eqb_eq in E; contradiction|].
      reflexivity. }
    unfold recency. rewrite Hage.
    repeat split; intros ->.
    + replace (nowYear - (nowYear - 2)) with 2 by lia. reflexivity.
    + replace (nowYear - (nowYear - 3)) with 3 by lia. reflexivity.
    + replace (nowYear - (nowYear - 6)) with 6 by lia. reflexivity.
  - intros Hy. unfold recency, age. rewrite Hy. split; reflexivity.
Qed.

Lemma recency_boundary_witness :
  recency 2025 (paper arxiv "a" (Some 2023) None None None) = 2
  /\ recency 2025 (paper arxiv "a" (Some 2022) None None None) = 1
  /\ recency 2025 (paper arxiv "a" (Some 2019) None None None) = 0
  /\ (age 2025 blank = 10 /\ recency 2025 blank = 0).
Proof.
  repeat apply conj.
  - apply (proj1 (recency_boundary 2025 _) 2023); [reflexivity | lia | lia].
  - apply (proj1 (recency_boundary 2025 _) 2022); [reflexivity | lia | lia].
  - apply (proj1 (recency_boundary 2025 _) 2019); [reflexivity | lia | lia].
  - apply (proj2 (recency_boundary 2025 blank)); reflexivity.
  - apply (proj2 (recency_boundary 2025 blank)); reflexivity.
Defined.

(** ** Invariant of the merge loop *)

Lemma get_none_fresh (k : jsstring) (m : KeyMap) :
  get k m = None -> ~ In k (keys m).
Proof.
  induction m as [|[k' v'] m IH]; simpl; [tauto|].
  destruct (str_eqb k k') eqn:E; [discriminate|].
  intros H [Hk|Hk]; [subst; now rewrite str_eqb_refl in E|].
  now apply IH.
Qed.

Lemma keys_app (m1 m2 : KeyMap) : keys (m1 ++ m2) = keys m1 ++ keys m2.
Proof. apply map_app. Qed.

Lemma NoDup_snoc (k : jsstring) (l : list jsstring) :
  NoDup l -> ~ In k l -> NoDup (l ++ [k]).
Proof.
  intros Hl Hk. induction Hl as [|a l Ha Hl IH]; simpl.
  - constructor; [tauto | constructor].
  - constructor.
    + rewrite in_app_iff. simpl. intros [H|[H|[]]]; [tauto|].
      subst. apply Hk. now left.
    + apply IH. intros H. apply Hk. now right.
Qed.

Lemma step_wellKeyed (m : KeyMap) (it : LitItem) :
  wellKeyed m -> wellKeyed (step m it).
Proof.
  intros [Hnd Hk]. unfold step. rewrite makeKey_truthy. simpl.
  destruct (get (makeKey it) m) as [existing|] eqn:G.
  - pose proof (get_some_key _ _ _ G) as Hin.
    assert (Hkey : In (makeKey it) (keys m))
      by (apply (in_map fst) in Hin; exact Hin).
    split.
    + unfold wellKeyed. now rewrite keys_set_present.
    + rewrite Forall_forall in *. intros e He.
      apply in_set in He. destruct He as [->|He]; [|now apply Hk].
      simpl. destruct (pick_either it existing) as [->| ->]; [reflexivity|].
      exact (Hk _ Hin).
  - apply get_none_fresh in G. rewrite set_fresh by exact G. split.
    + rewrite keys_app. simpl. now apply NoDup_snoc.
    + apply Forall_app. split; [exact Hk|]. now constructor.
Qed.

Lemma fold_step_wellKeyed (l : list LitItem) (m : KeyMap) :
  wellKeyed m -> wellKeyed (fold_left step l m).
Proof.
  revert m. induction l as [|it l IH]; simpl; intros m H; [exact H|].
  apply IH. now apply step_wellKeyed.
Qed.

Lemma collect_wellKeyed (l : list LitItem) : wellKeyed (collect l).
Proof.
  apply fold_step_wellKeyed. split; constructor.
Qed.

(** The loop only stores records it was given. *)
Lemma step_values (m : KeyMap) (it v : LitItem) :
  In v (values (step m it)) -> v = it \/ In v (values m).
Proof.
  unfold step, values. destruct (negb (truthy (makeKey it))); [now right|].
  destruct (get (makeKey it) m) as [existing|] eqn:G; intros H;
    apply in_map_iff in H; destruct H as ([k w] & <- & H);
    apply in_set in H; simpl.
  - destruct H as [H|H].
    + injection H as _ ->.
      destruct (pick_either it existing) as [->| ->]; [now left|].
      right. apply get_some_key in G. now apply (in_map snd) in G.
    + right. now apply (in_map snd) in H.
  - destruct H as [H|H].
    + injection H as _ ->. now left.
    + right. now apply (in_map snd) in H.
Qed.

Lemma fold_step_values (l : list LitItem) (m : KeyMap) (v : LitItem) :
  In v (values (fold_left step l m)) -> In v l \/ In v (values m).
Proof.
  revert m. induction l as [|it l IH]; simpl; intros m H; [now right|].
  apply IH in H. destruct H as [H|H]; [now left; right|].
  apply step_values in H. destruct H as [->|H]; [now left; left | now right].
Qed.

Lemma dedupe_subset (l : list LitItem) (v : LitItem) :
  In v (dedupe l) -> In v l.
Proof.
  intros H. apply fold_step_values in H. destruct H as [H|[]]. exact H.
Qed.

(** Running the loop over the values of a well-keyed map rebuilds it. *)
Lemma fold_step_rebuild (m2 m1 : KeyMap) :
  wellKeyed (m1 ++ m2) -> fold_left step (values m2) m1 = m1 ++ m2.
Proof.
  revert m1. induction m2 as [|[k v] m2 IH]; intros m1 H; simpl.
  - now rewrite app_nil_r.
  - assert (Hk : makeKey v = k).
    { destruct H as [_ H]. rewrite Forall_forall in H.
      apply (H (k, v)). apply in_or_app. right. now left. }
    assert (Hfresh : ~ In k (keys m1)).
    { destruct H as [H _]. rewrite keys_app in H. simpl in H.
      apply NoDup_remove_2 in H. intros Hin. apply H.
      apply in_or_app. now left. }
    assert (Hstep : step m1 v = m1 ++ [(k, v)]).
    { unfold step. rewrite makeKey_truthy, Hk. simpl.
      rewrite (get_fresh _ _ Hfresh). now apply set_fresh. }
    rewrite Hstep, IH; rewrite <- app_assoc; [reflexivity | exact H].
Qed.

Lemma dedupe_values (m : KeyMap) : wellKeyed m -> collect (values m) = m.
Proof. intros H. exact (fold_step_rebuild m [] H). Qed.

(** C4: the merge step applied to its own output returns that output: the
    same records in the same order, none lost; and so does the whole of
    [dedupeAndRank]. *)
Theorem dedupe_idempotent (items : list LitItem) (nowYear topN : Z) :
  dedupe (dedupe items) = dedupe items
  /\ List.length (dedupe (dedupe items)) = List.length (dedupe items)
  /\ dedupeAndRank (Literature.items (dedupeAndRank items nowYear topN))
       nowYear topN
     = dedupeAndRank items nowYear topN.
Proof.
  assert (H : dedupe (dedupe items) = dedupe items).
  { unfold dedupe. now rewrite dedupe_values by apply collect_wellKeyed. }
  repeat split.
  - exact H.
  - now rewrite H.
  - unfold dedupeAndRank. simpl. now rewrite H.
Qed.

(** The representatives are pairwise distinct records. *)
Lemma dedupe_NoDup (l : list LitItem) : NoDup (dedupe l).
Proof.
  destruct (collect_wellKeyed l) as [Hnd Hk]. unfold dedupe, values.
  induction (collect l) as [|[k v] m IH]; simpl; [constructor|].
  inversion Hnd as [|? ? Hn Hnd']; subst. inversion Hk as [|? ? Hv Hk']; subst.
  constructor; [|now apply IH].
  intros Hin. apply in_map_iff in Hin. destruct Hin as ([k' w] & Hw & Hin).
  simpl in *. subst w. apply Hn.
  rewrite Forall_forall in Hk'. pose proof (Hk' _ Hin) as Hv'. simpl in Hv'.
  assert (k' = k) by congruence. subst k'.
  apply (in_map fst) in Hin. simpl in Hin. now rewrite Hv in Hin.
Qed.

(** One representative per key: two merged records with the same key are
    the same record. Records that differ in the citation count only have the
    same key, so the merge never hands both to the ranking. *)
Lemma unique_key_value (m : KeyMap) (k : jsstring) (a b : LitItem) :
  NoDup (keys m) -> In (k, a) m -> In (k, b) m -> a = b.
Proof.
  induction m as [|[k' v] m IH]; simpl; [tauto|].
  intros Hnd [Ha|Ha] [Hb|Hb]; inversion Hnd as [|? ? Hn Hnd']; subst.
  - congruence.
  - injection Ha as -> ->. exfalso. apply Hn.
    now apply (in_map fst) in Hb.
  - injection Hb as -> ->. exfalso. apply Hn.
    now apply (in_map fst) in Ha.
  - now apply IH.
Qed.

Lemma dedupe_one_per_key (l : list LitItem) (x y : LitItem) :
  In x (dedupe l) -> In y (dedupe l) -> makeKey x = makeKey y -> x = y.
Proof.
  destruct (collect_wellKeyed l) as [Hnd Hk]. rewrite Forall_forall in Hk.
  unfold dedupe, values. intros Hx Hy Hxy.
  apply in_map_iff in Hx, Hy.
  destruct Hx as ([k1 x'] & Hx' & Hx). destruct Hy as ([k2 y'] & Hy' & Hy).
  simpl in *. subst x' y'.
  pose proof (Hk _ Hx) as H1. pose proof (Hk _ Hy) as H2. simpl in *.
  assert (Hkk : k2 = k1) by congruence. rewrite Hkk in Hy.
  exact (unique_key_value _ _ _ _ Hnd Hx Hy).
Qed.

(** ** The stable sort *)

Section Sorting.

Variable cmp : Scored -> Scored -> R.

Lemma insert_perm (a : Scored) (l : list Scored) :
  Permutation (insert cmp a l) (a :: l).
Proof.
  induction l as [|b l IH]; simpl; [reflexivity|].
  destruct (Rlt_dec 0 (cmp a b)); [|reflexivity].
  rewrite IH. apply perm_swap.
Qed.

Lemma sort_perm (l : list Scored) : Permutation (sort cmp l) l.
Proof.
  induction l as [|a l IH]; simpl; [reflexivity|].
  rewrite insert_perm. now constructor.
Qed.

End Sorting.

Lemma insert_sorted (a : Scored) (l : list Scored) :
  StronglySorted desc l -> StronglySorted desc (insert byScoreDesc a l).
Proof.
  induction 1 as [|b l Hs IH Hb]; simpl.
  - repeat constructor.
  - unfold byScoreDesc at 1. destruct (Rlt_dec 0 (score b - score a)) as [Hlt|Hge].
    + constructor; [exact IH|].
      rewrite Forall_forall in *. intros e He.
      apply (Permutation_in _ (insert_perm byScoreDesc a l)) in He.
      destruct He as [<-|He]; [unfold desc; lra | now apply Hb].
    + constructor; [now constructor|].
      constructor; [unfold desc; lra|].
      rewrite Forall_forall in *. intros e He.
      specialize (Hb e He). unfold desc in *. lra.
Qed.

Lemma sort_sorted (l : list Scored) : StronglySorted desc (sort byScoreDesc l).
Proof.
  induction l as [|a l IH]; simpl; [constructor | now apply insert_sorted].
Qed.

Lemma rank_perm (nowYear : Z) (l : list LitItem) :
  Permutation (rank nowYear l) l.
Proof.
  unfold rank. rewrite sort_perm, map_map. simpl. now rewrite map_id.
Qed.

Lemma sorted_items (nowYear : Z) (l : list Scored) :
  Forall (fun s => score s = scoreOf nowYear (item s)) l ->
  StronglySorted desc l ->
  StronglySorted (descending nowYear) (List.map item l).
Proof.
  intros Hf Hs. induction Hs as [|a l Hs IH Ha]; simpl; [constructor|].
  inversion Hf as [|? ? Hsa Hf']; subst.
  constructor; [now apply IH|].
  rewrite Forall_forall in *. intros y Hy.
  apply in_map_iff in Hy. destruct Hy as (s & <- & Hin).
  unfold descending. rewrite <- Hsa, <- (Hf' _ Hin). exact (Ha _ Hin).
Qed.

Lemma rank_sorted (nowYear : Z) (l : list LitItem) :
  StronglySorted (descending nowYear) (rank nowYear l).
Proof.
  unfold rank. apply sorted_items; [|apply sort_sorted].
  rewrite Forall_forall. intros s Hs.
  apply (Permutation_in _ (sort_perm byScoreDesc _)) in Hs.
  apply in_map_iff in Hs. destruct Hs as (x & <- & _). reflexivity.
Qed.

(** The sort is stable: the entries of one score come out in the order
    they went in. With [rank_perm] and [rank_sorted] this fixes the result. *)
Lemma scored_at_true (v : R) (s : Scored) :
  scored_at v s = true -> score s = v.
Proof.
  unfold scored_at. destruct (Req_dec_T (score s) v); [auto | discriminate].
Qed.

Lemma insert_keeps_ties (v : R) (a : Scored) (l : list Scored) :
  filter (scored_at v) (insert byScoreDesc a l)
  = filter (scored_at v) (a :: l).
Proof.
  induction l as [|b l IH]; [reflexivity|].
  cbn [insert]. unfold byScoreDesc at 1.
  destruct (Rlt_dec 0 (score b - score a)) as [Hlt|Hge]; [|reflexivity].
  cbn [filter] in *. rewrite IH.
  destruct (scored_at v a) eqn:Ea; destruct (scored_at v b) eqn:Eb;
    try reflexivity.
  apply scored_at_true in Ea, Eb. exfalso. lra.
Qed.

Lemma sort_stable (v : R) (l : list Scored) :
  filter (scored_at v) (sort byScoreDesc l) = filter (scored_at v) l.
Proof.
  induction l as [|a l IH]; [reflexivity|].
  cbn [sort fold_right]. fold (sort byScoreDesc l).
  rewrite insert_keeps_ties. cbn [filter]. now rewrite IH.
Qed.

Lemma rank_stable (nowYear : Z) (v : R) (l : list LitItem) :
  filter (scores_at nowYear v) (rank nowYear l)
  = filter (scores_at nowYear v) l.
Proof.
  unfold rank.
  set (scored := List.map
         (fun x => {| score := scoreOf nowYear x; item := x |}) l).
  assert (Hs : forall s, In s (sort byScoreDesc scored) ->
                 scores_at nowYear v (item s) = scored_at v s).
  { intros s Hs. apply (Permutation_in _ (sort_perm byScoreDesc _)) in Hs.
    apply in_map_iff in Hs. destruct Hs as (x & <- & _). reflexivity. }
  rewrite filter_map_swap.
  rewrite (filter_ext_in _ (scored_at v) _ Hs), sort_stable.
  unfold scored. rewrite filter_map_swap, map_map. simpl.
  rewrite map_id. reflexivity.
Qed.

(** In a sorted list the relation holds from an earlier to a later
    position. *)
Lemma sorted_nth {A : Type} (rel : A -> A -> Prop) (l : list A) :
  StronglySorted rel l ->
  forall (i j : nat) (a b : A),
    nth_error l i = Some a -> nth_error l j = Some b -> (i < j)%nat ->
    rel a b.
Proof.
  induction 1 as [|c l Hs IH Hc]; intros i j a b Hi Hj Hlt.
  - destruct i; discriminate.
  - destruct j as [|j]; [lia|]. simpl in Hj. destruct i as [|i]; simpl in Hi.
    + injection Hi as ->. rewrite Forall_forall in Hc.
      apply Hc. eapply nth_error_In; eauto.
    + apply (IH i j); auto. lia.
Qed.

(** ** The slice *)

Lemma slice0_firstn {A : Type} (l : list A) (e : Z) :
  exists n : nat, slice0 l e = firstn n l.
Proof. unfold slice0. eexists. reflexivity. Qed.

Lemma slice0_nonneg {A : Type} (l : list A) (e : Z) :
  0 <= e -> slice0 l e = firstn (Z.to_nat e) l.
Proof.
  intros He. unfold slice0.
  destruct (e <? 0) eqn:E; [apply Z.ltb_lt in E; lia|].
  destruct (Z.le_gt_cases e (Z.of_nat (List.length l))) as [H|H].
  - now rewrite Z.min_l.
  - rewrite Z.min_r by lia. rewrite Nat2Z.id.
    rewrite firstn_all. symmetry. apply firstn_all2. lia.
Qed.

Lemma slice0_length {A : Type} (l : list A) (e : Z) :
  0 <= e -> Z.of_nat (List.length (slice0 l e)) <= e.
Proof.
  intros He. rewrite slice0_nonneg by exact He.
  pose proof (firstn_le_length (Z.to_nat e) l). lia.
Qed.

Lemma slice0_In {A : Type} (l : list A) (e : Z) (x : A) :
  In x (slice0 l e) -> In x l.
Proof.
  destruct (slice0_firstn l e) as [n ->]. intros H.
  rewrite <- (firstn_skipn n l). apply in_or_app. now left.
Qed.

Lemma firstn_nth {A : Type} (n i : nat) (l : list A) (x : A) :
  nth_error (firstn n l) i = Some x ->
  (i < n)%nat /\ nth_error l i = Some x.
Proof.
  rewrite nth_error_firstn. destruct (i <? n)%nat eqn:E; [|discriminate].
  apply Nat.ltb_lt in E. auto.
Qed.

(** C10: [dedupeAndRank] returns input records only, in [items] and in
    [top]; [top] has at most [topN] records (for the [topN] of a count, 12
    at the call); and [top] is the slice from the start of the merged
    records put in descending order of score. *)
Theorem dedupeAndRank_selects (input : list LitItem) (nowYear topN : Z) :
  let r := dedupeAndRank input nowYear topN in
  (forall x, In x (items r) -> In x input)
  /\ (forall x, In x (top r) -> In x input)
  /\ (0 <= topN -> Z.of_nat (List.length (top r)) <= topN)
  /\ exists ranked : list LitItem,
       Permutation ranked (items r)
       /\ StronglySorted (descending nowYear) ranked
       /\ top r = slice0 ranked topN
       /\ (0 <= topN -> top r = firstn (Z.to_nat topN) ranked).
Proof.
  simpl. repeat apply conj.
  - intros x. apply dedupe_subset.
  - intros x Hx. apply slice0_In in Hx.
    apply (Permutation_in _ (rank_perm nowYear _)) in Hx.
    now apply dedupe_subset.
  - apply slice0_length.
  - exists (rank nowYear (dedupe input)). repeat apply conj.
    + apply rank_perm.
    + apply rank_sorted.
    + reflexivity.
    + apply slice0_nonneg.
Qed.

Lemma dedupeAndRank_selects_witness :
  Z.of_nat (List.length
              (top (dedupeAndRank [cited_bare; uncited_abstract; blank]
                      2025 12))) <= 12.
Proof.
  apply (dedupeAndRank_selects [cited_bare; uncited_abstract; blank] 2025 12).
  lia.
Defined.

(** ** The ranking and the citation count *)





(** *** Rounding to a double *)




(** Up to [2^53] every integer is a double; behind it the odd ones are
    not, and a tie goes to the even significand. *)
Example toDouble_samples :
  toDouble 41 = 41 /\ toDouble 9007199254740992 = 9007199254740992
  /\ toDouble 9007199254740993 = 9007199254740992
  /\ toDouble 9007199254740995 = 9007199254740996
  /\ toDouble 18014398509481990 = 18014398509481992.
Proof. vm_compute. repeat split. Qed.


(** *** Order in a list *)

Lemma before_In {A : Type} (l : list A) (a b : A) :
  before l a b -> In a l /\ In b l.
Proof.
  intros (l1 & l2 & l3 & ->). split.
  - apply in_or_app. right. now left.
  - apply in_or_app. right. right. apply in_or_app. right. now left.
Qed.







(** *** The ranking by the scores of the engine *)

Section RankingByScore.

Variable sc : LitItem -> R.

Let ranked (l : list LitItem) : list LitItem :=
  List.map item
    (sort byScoreDesc
       (List.map (fun x => {| score := sc x; item := x |}) l)).





End RankingByScore.





(** ** The aggregation route *)

Lemma dropWhile_head (p : N -> bool) (s r : jsstring) (c : N) :
  dropWhile p s = c :: r -> p c = false.
Proof.
  induction s as [|a s IH]; simpl; [discriminate|].
  destruct (p a) eqn:E; [exact IH|].
  intros H. injection H as <- _. exact E.
Qed.

Lemma dropWhile_all (p : N -> bool) (s : jsstring) :
  forallb p s = true -> dropWhile p s = [].
Proof.
  induction s as [|a s IH]; simpl; [reflexivity|].
  destruct (p a); simpl; [exact IH | discriminate].
Qed.

Lemma dropWhile_nil (p : N -> bool) (s : jsstring) :
  dropWhile p s = [] -> forallb p s = true.
Proof.
  induction s as [|a s IH]; simpl; [reflexivity|].
  destruct (p a); simpl; [exact IH | discriminate].
Qed.

(** [trim] leaves nothing exactly of the strings made of whitespace, the
    empty one among them. *)
Lemma trim_blank (s : jsstring) : truthy (trim s) = false <-> forallb is_ws s = true.
Proof.
  unfold trim, trimEnd, trimStart. split.
  - intros H. apply dropWhile_nil.
    destruct (dropWhile is_ws s) as [|c r] eqn:E; [reflexivity|].
    pose proof (dropWhile_head _ _ _ _ E) as Hc.
    assert (Hr : dropWhile is_ws (rev (c :: r)) = []).
    { destruct (dropWhile is_ws (rev (c :: r))) as [|d t] eqn:D;
        [reflexivity|].
      simpl in H. destruct (rev t); discriminate. }
    apply dropWhile_nil in Hr. rewrite forallb_forall in Hr.
    specialize (Hr c). rewrite Hr in Hc; [discriminate|].
    apply -> in_rev. now left.
  - intros H. now rewrite (dropWhile_all _ _ H).
Qed.

Lemma or_else_cases (a b : jsstring) :
  (truthy a = true /\ or_else a b = a) \/ (truthy a = false /\ or_else a b = b).
Proof. unfold or_else. destruct (truthy a); auto. Qed.

(** C3: the route answers 400 exactly when the query is absent, empty or
    whitespace; for every other query it answers 200 with a result body;
    and when all three adapters are rejected the body is [items: []],
    [top: []] and a warning that is not empty: the message of the first
    rejection in the order Crossref, arXiv, Semantic Scholar whose message is
    not empty, hence the Crossref message when that is not empty. *)
Theorem aggregation_failure_policy
    (searchCrossref searchArxiv searchS2 : jsstring -> Z -> Settled)
    (currentYear : Z) (req : Request) :
  let q := orElse (query req) [] in
  let response := POST searchCrossref searchArxiv searchS2 currentYear req in
  (status response = 400 <-> forallb is_ws q = true)
  /\ (forallb is_ws q = true ->
      response = json (errorBody provideQuery) 400)
  /\ (forallb is_ws q = false ->
      status response = 200
      /\ exists items top warning,
           payload response = resultBody items top warning)
  /\ (forallb is_ws q = false ->
      forall m1 m2 m3 : jsstring,
        searchCrossref (trim q) (limitOf req) = rejected m1 ->
        searchArxiv (trim q) (limitOf req) = rejected m2 ->
        searchS2 (trim q) (limitOf req) = rejected m3 ->
        exists w : jsstring,
          response = json (resultBody [] [] (Some w)) 200
          /\ truthy w = true
          /\ w = or_else m1 (or_else m2 (or_else m3 (lit "No results")))
          /\ (truthy m1 = true -> w = m1)).
Proof.
  intros q response. unfold response, POST. fold q.
  destruct (truthy (trim q)) eqn:T; simpl.
  - assert (Hq : forallb is_ws q = false).
    { destruct (forallb is_ws q) eqn:E; [|reflexivity].
      apply trim_blank in E. congruence. }
    assert (H200 : forall items, status
              match items with
              | [] => json (resultBody [] []
                  (Some (orElse (reasonMessage (searchCrossref (trim q) (limitOf req)))
                     (orElse (reasonMessage (searchArxiv (trim q) (limitOf req)))
                        (orElse (reasonMessage (searchS2 (trim q) (limitOf req)))
                           (lit "No results")))))) 200
              | _ :: _ => json (resultBody
                  (Literature.items (dedupeAndRank items currentYear 12))
                  (top (dedupeAndRank items currentYear 12)) None) 200
              end = 200)
      by (intros [|? ?]; reflexivity).
    split; [|split; [|split]].
    + rewrite H200, Hq. split; intros H; discriminate H.
    + rewrite Hq. intros H; discriminate H.
    + intros _. split; [apply H200|].
      destruct (valueOf _ ++ valueOf _ ++ valueOf _); simpl; eauto.
    + intros _ m1 m2 m3 -> -> ->. simpl.
      eexists. split; [reflexivity|]. repeat apply conj.
      * do 3 apply or_else_truthy. reflexivity.
      * reflexivity.
      * intros H. unfold or_else at 1. now rewrite H.
  - assert (Hq : forallb is_ws q = true) by now apply trim_blank.
    rewrite Hq. split; [|split; [|split]]; try (intros H; discriminate H).
    + split; reflexivity.
    + reflexivity.
Qed.

Lemma aggregation_failure_policy_witness :
  exists w : jsstring,
    POST timesOut timesOut timesOut 2025
      {| query := Some (lit " crispr "); limit := None |}
    = json (resultBody [] [] (Some w)) 200
    /\ truthy w = true
    /\ w = or_else (lit "timeout")
             (or_else (lit "timeout")
                (or_else (lit "timeout") (lit "No results")))
    /\ (truthy (lit "timeout") = true -> w = lit "timeout").
Proof.
  apply (proj2 (proj2 (proj2
    (aggregation_failure_policy timesOut timesOut timesOut 2025
       {| query := Some (lit " crispr "); limit := None |}))));
    reflexivity.
Defined.

(** ** The PubMed route *)

Section PubMedRoute.

Import PubMed.

Variables Summary Paper : Type.
Variable esearchFirstPMID : jsstring -> Outcome (option jsstring).
Variable esummaryOne : jsstring -> Outcome Summary.
Variable efetchAbstractOne : jsstring -> Outcome jsstring.
Variable buildPaper : jsstring -> Summary -> jsstring -> Outcome Paper.


End PubMedRoute.


Example pubmed_pmid_wins :
  PubMed.POST unreachable noSummary noAbstract pmidOnly
    {| PubMed.pmid := Some (lit " 12345678 ");
       PubMed.query := Some (lit "cancer") |}
  = PubMed.json (PubMed.paperBody (lit "12345678")) 200.
Proof. vm_compute; reflexivity. Qed.

(** ** The digest *)

Section Digest.

Import Workspace.

Lemma clip_length (a : option jsstring) : (List.length (clip a) <= 1501)%nat.
Proof.
  unfold clip.
  set (abs := trim (match a with Some s => or_else s [] | None => [] end)).
  destruct (1500 <? List.length abs)%nat eqn:E.
  - apply Nat.ltb_lt in E. rewrite length_app, firstn_length_le by lia.
    simpl. lia.
  - apply Nat.ltb_ge in E. lia.
Qed.

Lemma mkBlock_truthy (x : LitItem) (idx : nat) : truthy (mkBlock x idx) = true.
Proof. reflexivity. Qed.

Lemma mkBlocks_truthy (items : list LitItem) (idx : nat) :
  Forall (fun b => truthy b = true) (mkBlocks idx items).
Proof.
  revert idx. induction items as [|x r IH]; intros idx; simpl; constructor.
  - apply mkBlock_truthy.
  - apply IH.
Qed.

Lemma mkBlocks_firstn (k : nat) (items : list LitItem) (idx : nat) :
  firstn k (mkBlocks idx items) = mkBlocks idx (firstn k items).
Proof.
  revert idx items. induction k as [|k IH]; intros idx [|x r]; simpl; auto.
  now rewrite IH.
Qed.

Lemma mkBlocks_length (items : list LitItem) (idx : nat) :
  List.length (mkBlocks idx items) = List.length items.
Proof.
  revert idx. induction items as [|x r IH]; intros idx; simpl; auto.
Qed.

Lemma join_truthy (l : list jsstring) (b : jsstring) :
  truthy b = true -> truthy (join sep (b :: l)) = true.
Proof.
  intros H. destruct l; simpl; [exact H | now apply truthy_app_l].
Qed.

(** What an iteration appends is what [join] appends. *)
Lemma join_snoc (done : list jsstring) (b : jsstring) :
  Forall (fun b => truthy b = true) done ->
  join sep (done ++ [b])
  = join sep done ++ (if truthy (join sep done) then sep else []) ++ b.
Proof.
  induction 1 as [|a l Ha Hl IH]; [reflexivity|].
  rewrite (join_truthy l a Ha).
  destruct l as [|c l]; [reflexivity|].
  change (join sep ((a :: c :: l) ++ [b]))
    with (a ++ sep ++ join sep ((c :: l) ++ [b])).
  rewrite IH. inversion Hl; subst. rewrite (join_truthy l c H1).
  change (join sep (a :: c :: l)) with (a ++ sep ++ join sep (c :: l)).
  now rewrite <- !app_assoc.
Qed.

(** The loop never lets [out] grow past a budget it is within. *)
Lemma pack_length (maxChars : Z) (blocks : list jsstring) (out : jsstring) :
  Z.of_nat (List.length out) <= maxChars ->
  Z.of_nat (List.length (pack maxChars out blocks)) <= maxChars.
Proof.
  revert out. induction blocks as [|b r IH]; intros out H; cbn [pack];
    [exact H|].
  destruct (maxChars <? Z.of_nat (List.length (out ++ sep ++ b))) eqn:E;
    [exact H|].
  apply Z.ltb_ge in E. apply IH.
  rewrite !length_app in *. destruct (truthy out); simpl in *; lia.
Qed.

(** The loop joins the blocks up to the first one that fails its test. *)
Lemma pack_join (maxChars : Z) (blocks done : list jsstring) :
  Forall (fun b => truthy b = true) done ->
  Forall (fun b => truthy b = true) blocks ->
  exists k : nat,
    (k <= List.length blocks)%nat
    /\ pack maxChars (join sep done) blocks
       = join sep (done ++ firstn k blocks)
    /\ forall b, nth_error blocks k = Some b ->
         maxChars
         < Z.of_nat (List.length
                       (pack maxChars (join sep done) blocks ++ sep ++ b)).
Proof.
  intros Hd Hb. revert done Hd.
  induction Hb as [|b r Hb Hr IH]; intros done Hd.
  - exists 0%nat. simpl. rewrite app_nil_r. repeat split; auto.
    intros b H. discriminate.
  - cbn [pack].
    destruct (maxChars <? Z.of_nat (List.length (join sep done ++ sep ++ b)))
      eqn:E.
    + exists 0%nat. simpl. rewrite app_nil_r. repeat split; [lia|].
      intros b' H. injection H as <-. now apply Z.ltb_lt in E.
    + rewrite <- (join_snoc done b Hd).
      destruct (IH (done ++ [b])) as (k & Hk & Hj & Hn).
      { apply Forall_app. split; [exact Hd | now constructor]. }
      exists (S k). simpl. repeat split; [lia | | exact Hn].
      rewrite Hj, <- app_assoc. reflexivity.
Qed.

(** The blocks of the first loop, by index. *)
Lemma mkBlocks_nth (items : list LitItem) (idx i : nat) (x : LitItem) :
  nth_error items i = Some x ->
  nth_error (mkBlocks idx items) i = Some (mkBlock x (idx + i)).
Proof.
  revert idx i. induction items as [|y r IH]; intros idx [|i] H;
    try discriminate.
  - injection H as ->. simpl. now rewrite Nat.add_0_r.
  - simpl. rewrite (IH (S idx) i H). do 2 f_equal. lia.
Qed.

(** What a block shows of an abstract. *)
Lemma clip_cases (a : option jsstring) :
  let abs := trim (match a with Some s => s | None => [] end) in
  let shown := or_else (clip a) (lit "N/A") in
  (List.length shown <= 1501)%nat
  /\ (abs = [] -> shown = lit "N/A")
  /\ (abs <> [] -> (List.length abs <= 1500)%nat -> shown = abs)
  /\ ((1500 < List.length abs)%nat -> shown = firstn 1500 abs ++ [8230%N]).
Proof.
  intros abs shown.
  assert (Hclip : clip a
                  = if (1500 <? List.length abs)%nat
                    then firstn 1500 abs ++ ellipsis else abs).
  { unfold clip, abs. destruct a as [[|? ?]|]; reflexivity. }
  unfold shown. rewrite Hclip.
  destruct (1500 <? List.length abs)%nat eqn:E.
  - apply Nat.ltb_lt in E.
    assert (Hne : exists c r, firstn 1500 abs = c :: r).
    { destruct abs as [|c r]; [simpl in E; lia|]. simpl. eauto. }
    destruct Hne as (c & r & Hcr).
    assert (Hlen : (List.length (firstn 1500 abs ++ ellipsis) <= 1501)%nat).
    { rewrite length_app, firstn_length_le by lia. simpl. lia. }
    rewrite Hcr in *. simpl or_else.
    split; [exact Hlen|]. split; [|split].
    + intros Habs. rewrite Habs in E. simpl in E. lia.
    + intros _ Hle. lia.
    + reflexivity.
  - apply Nat.ltb_ge in E. destruct abs as [|c r]; simpl or_else.
    + split; [simpl; lia|]. split; [|split].
      * reflexivity.
      * intros Hne. now contradiction Hne.
      * intros Hlt. simpl in Hlt. lia.
    + change (or_else (c :: r) (lit "N/A")) with (c :: r).
      split; [lia|]. split; [|split].
      * discriminate.
      * reflexivity.
      * intros Hlt. lia.
Qed.

(** C9: the digest for the budget of 12000 is never longer than 12000. Every
    block is the cite line of its record, a line feed, ["Abstract: "] and the
    abstract as the block shows it: trimmed, cut to its first 1500 code units
    plus the ellipsis when the trimmed abstract is longer than 1500, and
    ["N/A"] when it is empty; so what is shown is never longer than 1501.
    The digest is the first [k] blocks, in order, joined by blank lines,
    where block [k], if there is one, is the first whose test against the
    budget fails: no later block is included. *)
Theorem digest_bounded (items : list LitItem) :
  let out := mkGeminiContext items 12000 in
  let blocks := mkBlocks 0 items in
  Z.of_nat (List.length out) <= 12000
  /\ (forall (i : nat) (x : LitItem),
        nth_error items i = Some x ->
        let abs :=
          trim (match abstract_ x with Some s => s | None => [] end) in
        exists shown : jsstring,
          nth_error blocks i
          = Some (mkCiteLine x i ++ [10%N] ++ lit "Abstract: " ++ shown)
          /\ (List.length shown <= 1501)%nat
          /\ (abs = [] -> shown = lit "N/A")
          /\ (abs <> [] -> (List.length abs <= 1500)%nat -> shown = abs)
          /\ ((1500 < List.length abs)%nat ->
              shown = firstn 1500 abs ++ [8230%N]))
  /\ exists k : nat,
       (k <= List.length items)%nat
       /\ out = join sep (firstn k blocks)
       /\ forall b : jsstring,
            nth_error blocks k = Some b ->
            12000 < Z.of_nat (List.length (out ++ sep ++ b)).
Proof.
  intros out blocks. split; [|split].
  - apply pack_length. simpl. lia.
  - intros i x Hx abs.
    exists (or_else (clip (abstract_ x)) (lit "N/A")). split.
    + unfold blocks. rewrite (mkBlocks_nth items 0 i x Hx). simpl Nat.add.
      unfold mkBlock, abstractLabel. cbv zeta.
      now rewrite <- !app_assoc.
    + apply clip_cases.
  - destruct (pack_join 12000 (mkBlocks 0 items) [] (Forall_nil _)
                (mkBlocks_truthy items 0)) as (k & Hk & Hj & Hn).
    exists k. rewrite mkBlocks_length in Hk. repeat split.
    + exact Hk.
    + unfold out, mkGeminiContext. change [] with (join sep []) at 1.
      rewrite Hj. reflexivity.
    + exact Hn.
Qed.

End Digest.

Lemma digest_bounded_witness :
  let blocks := Workspace.mkBlocks 0 [wordy; blank] in
  let out := Workspace.mkGeminiContext [wordy; blank] 12000 in
  Z.of_nat (List.length out) <= 12000
  /\ exists shown : jsstring,
       nth_error blocks 0
       = Some (Workspace.mkCiteLine wordy 0 ++ [10%N] ++ lit "Abstract: "
               ++ shown)
       /\ shown = repeat 97%N 1500 ++ [8230%N].
Proof.
  intros blocks out.
  pose proof (digest_bounded [wordy; blank]) as H.
  split; [exact (proj1 H)|].
  destruct (proj1 (proj2 H) 0%nat wordy eq_refl)
    as (shown & Hb & _ & _ & _ & Hcut).
  exists shown. split; [exact Hb|].
  rewrite Hcut; [vm_compute; reflexivity|].
  apply Nat.ltb_lt. vm_compute. reflexivity.
Defined.

(** The digest of a record with an abstract of 1600 code units and of a
    blank one: the abstract is cut, both blocks are in. *)
Example mkGeminiContext_cut :
  Workspace.mkGeminiContext [wordy; blank] 12000
  = lit "#1 Long abstract (2021)" ++ Workspace.dash ++ lit " [CROSSREF]"
    ++ [10%N] ++ lit "Abstract: " ++ repeat 97%N 1500 ++ [8230%N]
    ++ [10%N; 10%N]
    ++ lit "#2 " ++ Workspace.dash ++ lit " [ARXIV]" ++ [10%N]
    ++ lit "Abstract: N/A".
Proof. vm_compute; reflexivity. Qed.

(** The block of a record, as the page writes it. *)
Example mkGeminiContext_one :
  Workspace.mkGeminiContext [uncited_abstract] 12000
  = lit "#1 Gene editing (2020)" ++ Workspace.dash ++ lit " [S2]"
    ++ Workspace.dash ++ lit "doi:10.1/x" ++ [10%N]
    ++ lit "Abstract: We edit genes.".
Proof. vm_compute; reflexivity. Qed.

Example mkGeminiContext_two :
  Workspace.mkGeminiContext [blank; blank] 12000
  = lit "#1 " ++ Workspace.dash ++ lit " [ARXIV]" ++ [10%N]
    ++ lit "Abstract: N/A" ++ [10%N; 10%N]
    ++ lit "#2 " ++ Workspace.dash ++ lit " [ARXIV]" ++ [10%N]
    ++ lit "Abstract: N/A".
Proof. vm_compute; reflexivity. Qed.

(** The test of the loop counts the separator also before the first block:
    a block of 28 code units does not enter a budget of 29. *)
Example mkGeminiContext_tight :
  List.length (Workspace.mkBlock blank 0) = 28%nat
  /\ Workspace.mkGeminiContext [blank] 29 = []
  /\ Workspace.mkGeminiContext [blank] 30 = Workspace.mkBlock blank 0.
Proof. repeat split; vm_compute; reflexivity. Qed.

(** * Further properties of the code *)

(** ** Strings *)

Lemma dropWhile_app (p : N -> bool) (a b : jsstring) :
  dropWhile p (a ++ b)
  = if forallb p a then dropWhile p b else dropWhile p a ++ b.
Proof.
  induction a as [|c a IH]; simpl; [reflexivity|].
  destruct (p c); simpl; [exact IH | reflexivity].
Qed.

Lemma dropWhile_idem (p : N -> bool) (s : jsstring) :
  dropWhile p (dropWhile p s) = dropWhile p s.
Proof.
  induction s as [|c s IH]; simpl; [reflexivity|].
  destruct (p c) eqn:E; [exact IH|]. simpl. now rewrite E.
Qed.

(** A string that neither starts nor ends with whitespace is its own
    trimming. *)
Lemma trimEnd_last (s : jsstring) (c : N) :
  is_ws c = false -> trimEnd (s ++ [c]) = s ++ [c].
Proof.
  intros H. unfold trimEnd. rewrite rev_app_distr. simpl. rewrite H.
  change (c :: rev s) with (rev [c] ++ rev s).
  now rewrite <- rev_app_distr, rev_involutive.
Qed.

Lemma trimEnd_app (a b : jsstring) (c : N) :
  is_ws c = false -> trimEnd (a ++ [c] ++ b) = a ++ [c] ++ trimEnd b.
Proof.
  intros H. unfold trimEnd.
  assert (Hrev : rev (a ++ [c] ++ b) = rev b ++ c :: rev a).
  { rewrite rev_app_distr. simpl. now rewrite <- app_assoc. }
  rewrite Hrev, dropWhile_app.
  destruct (forallb is_ws (rev b)) eqn:E.
  - rewrite (dropWhile_all _ _ E). simpl. rewrite H. simpl.
    now rewrite rev_involutive.
  - rewrite rev_app_distr. simpl. now rewrite rev_involutive, <- app_assoc.
Qed.

Lemma trimStart_head (s : jsstring) (c : N) :
  is_ws c = false -> trimStart (c :: s) = c :: s.
Proof. intros H. unfold trimStart. simpl. now rewrite H. Qed.

Lemma trimEnd_head (s : jsstring) (c : N) :
  is_ws c = false -> exists t, trimEnd (c :: s) = c :: t.
Proof.
  intros H. change (c :: s) with ([] ++ [c] ++ s).
  rewrite trimEnd_app by exact H. simpl. eauto.
Qed.

Lemma trimEnd_idem (s : jsstring) : trimEnd (trimEnd s) = trimEnd s.
Proof.
  unfold trimEnd. now rewrite rev_involutive, dropWhile_idem.
Qed.

Lemma trim_idem (s : jsstring) : trim (trim s) = trim s.
Proof.
  assert (H : forall t, trimStart t = t -> trim (trimEnd t) = trimEnd t).
  { intros [|c t] Ht; [reflexivity|].
    assert (Hc : is_ws c = false).
    { unfold trimStart in Ht. simpl in Ht. destruct (is_ws c); [|reflexivity].
      exfalso.
      assert (Hl : (List.length (dropWhile is_ws t) <= List.length t)%nat).
      { clear. induction t as [|a t IH]; simpl; [lia|].
        destruct (is_ws a); simpl; lia. }
      rewrite Ht in Hl. simpl in Hl. lia. }
    destruct (trimEnd_head t c Hc) as [u Hu]. unfold trim at 1.
    rewrite Hu, (trimStart_head u c Hc), <- Hu. apply trimEnd_idem. }
  unfold trim at 2 3. apply H. unfold trimStart. apply dropWhile_idem.
Qed.

Lemma truthy_map (f : N -> N) (s : jsstring) :
  truthy (List.map f s) = truthy s.
Proof. destruct s; reflexivity. Qed.

(** Whitespace is not a letter: lowering leaves it alone and makes none. *)
Lemma is_ws_lower (c : N) : is_ws (lower c) = is_ws c.
Proof.
  unfold lower. destruct (in_range 65 90 c) eqn:E; [|reflexivity].
  unfold in_range in E. apply andb_true_iff in E. destruct E as [E1 E2].
  apply N.leb_le in E1, E2.
  assert (H1 : is_ws c = false).
  { unfold is_ws, in_range.
    repeat (apply orb_false_iff; split);
      try apply andb_false_iff; try (apply N.eqb_neq; lia);
      first [ left; apply N.leb_gt; lia | right; apply N.leb_gt; lia ]. }
  assert (H2 : is_ws (c + 32) = false).
  { unfold is_ws, in_range.
    repeat (apply orb_false_iff; split);
      try apply andb_false_iff; try (apply N.eqb_neq; lia);
      first [ left; apply N.leb_gt; lia | right; apply N.leb_gt; lia ]. }
  now rewrite H1, H2.
Qed.

(** ** Normalizers *)

(** X1: a DOI that [normDOI] returns is not empty, has no upper-case ASCII
    letter, and is an end piece of the trimmed, lowered input: nothing is
    added to it. *)
Theorem normDOI_result (raw r : jsstring) :
  normDOI (Some raw) = Some r ->
  truthy r = true
  /\ Forall (fun c => in_range 65 90 c = false) r
  /\ exists pre, toLowerCase (trim raw) = pre ++ r.
Proof.
  intros H. split; [exact (normDOI_truthy _ _ H)|].
  split; [exact (normDOI_lowercase _ _ H)|].
  unfold normDOI in H. destruct (negb (truthy raw)); [discriminate|].
  destruct (truthy (stripPrefix doiPrefix (toLowerCase (trim raw))));
    [|discriminate].
  injection H as <-. unfold stripPrefix.
  destruct (doiPrefix (toLowerCase (trim raw))) as [t|] eqn:E.
  - exact (doiPrefix_suffix _ _ E).
  - now exists [].
Qed.

Lemma normDOI_result_witness :
  truthy (lit "10.1/abc") = true
  /\ Forall (fun c => in_range 65 90 c = false) (lit "10.1/abc")
  /\ exists pre,
       toLowerCase (trim (lit " https://doi.org/10.1/ABC")) = pre ++ lit "10.1/abc".
Proof.
  apply (normDOI_result (lit " https://doi.org/10.1/ABC") (lit "10.1/abc")).
  vm_compute. reflexivity.
Defined.

Lemma toLowerCase_app (a b : jsstring) :
  toLowerCase (a ++ b) = toLowerCase a ++ toLowerCase b.
Proof. apply map_app. Qed.

(** A piece that starts and ends with a code unit that is no whitespace
    keeps what follows it from the trimming at the start, and itself from
    the trimming at the end. *)
Lemma trim_guarded (p d : jsstring) (a z : N) (mid : jsstring) :
  p = a :: mid ++ [z] -> is_ws a = false -> is_ws z = false ->
  trim (p ++ d) = p ++ trimEnd d.
Proof.
  intros -> Ha Hz. unfold trim.
  replace ((a :: mid ++ [z]) ++ d) with (a :: (mid ++ [z] ++ d))
    by (simpl; now rewrite <- app_assoc).
  rewrite trimStart_head by exact Ha.
  replace (a :: (mid ++ [z] ++ d)) with ((a :: mid) ++ [z] ++ d)
    by reflexivity.
  rewrite trimEnd_app by exact Hz.
  simpl. now rewrite <- app_assoc.
Qed.

(** A code unit that lowers to a letter or to a slash is no whitespace. *)
Lemma lower_not_ws (c k : N) : lower c = k -> is_ws k = false -> is_ws c = false.
Proof. intros <- H. now rewrite is_ws_lower in H. Qed.

Lemma split_ends (s : jsstring) :
  (2 <= List.length s)%nat ->
  exists a mid z, s = a :: mid ++ [z].
Proof.
  destruct s as [|a s]; simpl; [lia|]. intros H.
  destruct (exists_last (l := s)) as (mid & z & ->).
  { destruct s; simpl in *; [lia | discriminate]. }
  eauto.
Qed.

(** The ends of a string from those of its lowering. *)
Lemma lowered_ends (p : jsstring) (a z : N) (mid : jsstring) :
  toLowerCase p = a :: mid ++ [z] -> is_ws a = false -> is_ws z = false ->
  exists a' mid' z',
    p = a' :: mid' ++ [z'] /\ is_ws a' = false /\ is_ws z' = false.
Proof.
  intros H Ha Hz.
  assert (Hlen : (2 <= List.length p)%nat).
  { apply (f_equal (@List.length N)) in H. unfold toLowerCase in H.
    rewrite length_map in H. simpl in H. rewrite length_app in H.
    simpl in H. lia. }
  destruct (split_ends p Hlen) as (a' & mid' & z' & ->).
  exists a', mid', z'. split; [reflexivity|].
  unfold toLowerCase in H. simpl in H. rewrite map_app in H. simpl in H.
  injection H as H1 H2. apply app_inj_tail in H2. destruct H2 as [_ H2].
  split; [exact (lower_not_ws _ _ H1 Ha) | exact (lower_not_ws _ _ H2 Hz)].
Qed.

(** X2: a DOI behind any of the four spellings of the resolver prefix, in
    any letter case, normalizes to the lowered DOI without its trailing
    whitespace, and to [undefined] when nothing but whitespace follows the
    prefix. *)
Theorem normDOI_resolver_prefix (p d : jsstring) :
  In (toLowerCase p) resolverPrefixes ->
  normDOI (Some (p ++ d))
  = if truthy (trimEnd d) then Some (toLowerCase (trimEnd d)) else None.
Proof.
  intros Hin.
  assert (Hends : exists a mid z,
             toLowerCase p = a :: mid ++ [z]
             /\ is_ws a = false /\ is_ws z = false).
  { unfold resolverPrefixes in Hin. simpl in Hin.
    destruct Hin as [H|[H|[H|[H|[]]]]]; rewrite <- H;
      match goal with
      | |- exists a mid z, ?L = _ /\ _ =>
          exists 104%N, (removelast (tl L)), 47%N
      end; (split; [vm_compute; reflexivity | split; reflexivity]). }
  destruct Hends as (a & mid & z & Hp & Ha & Hz).
  destruct (lowered_ends p a z mid Hp Ha Hz) as (a' & mid' & z' & Hp' & Ha' & Hz').
  assert (Hstrip : forall s, doiPrefix (toLowerCase p ++ s) = Some s).
  { intros s. unfold resolverPrefixes in Hin. simpl in Hin.
    destruct Hin as [H|[H|[H|[H|[]]]]]; rewrite <- H; reflexivity. }
  unfold normDOI.
  replace (truthy (p ++ d)) with true by (rewrite Hp'; reflexivity).
  simpl. rewrite (trim_guarded p d a' z' mid' Hp' Ha' Hz').
  rewrite toLowerCase_app. unfold stripPrefix. rewrite Hstrip.
  unfold toLowerCase at 1. rewrite truthy_map.
  destruct (truthy (trimEnd d)); reflexivity.
Qed.

Lemma normDOI_resolver_prefix_witness :
  normDOI (Some (lit "HTTPS://DX.DOI.ORG/" ++ lit "10.1038/XYZ  "))
  = if truthy (trimEnd (lit "10.1038/XYZ  "))
    then Some (toLowerCase (trimEnd (lit "10.1038/XYZ  "))) else None.
Proof.
  apply (normDOI_resolver_prefix (lit "HTTPS://DX.DOI.ORG/")
           (lit "10.1038/XYZ  ")).
  vm_compute. right. right. right. left. reflexivity.
Defined.

Lemma forallb_rev (p : N -> bool) (l : jsstring) :
  forallb p (rev l) = forallb p l.
Proof.
  induction l as [|c l IH]; simpl; [reflexivity|].
  rewrite forallb_app, IH. simpl. rewrite andb_true_r. apply andb_comm.
Qed.

Lemma takeWhile_app_stop (p : N -> bool) (a b : jsstring) (c : N) :
  forallb p a = true -> p c = false -> takeWhile p (a ++ c :: b) = a.
Proof.
  intros Ha Hc. induction a as [|x a IH]; simpl in *; [now rewrite Hc|].
  apply andb_true_iff in Ha. destruct Ha as [Hx Ha]. rewrite Hx.
  now rewrite IH.
Qed.

Lemma dropWhile_app_stop (p : N -> bool) (a b : jsstring) (c : N) :
  forallb p a = true -> p c = false -> dropWhile p (a ++ c :: b) = c :: b.
Proof.
  intros Ha Hc. rewrite dropWhile_app, Ha. simpl. now rewrite Hc.
Qed.

(** A version suffix, [v] and a run of digits that is not empty, at the end
    of any string is what [stripVersion] removes. *)
Lemma stripVersion_suffix (s ds : jsstring) :
  ds <> [] -> forallb is_digit ds = true ->
  stripVersion (s ++ 118%N :: ds) = s.
Proof.
  intros Hne Hds. unfold stripVersion.
  assert (Hrev : rev (s ++ 118%N :: ds) = rev ds ++ 118%N :: rev s).
  { rewrite rev_app_distr. simpl. now rewrite <- app_assoc. }
  rewrite Hrev.
  rewrite takeWhile_app_stop, dropWhile_app_stop
    by (try rewrite forallb_rev; auto).
  destruct (rev ds) as [|d r] eqn:E.
  - exfalso. apply Hne. apply (f_equal (@rev N)) in E.
    now rewrite rev_involutive in E.
  - simpl. apply rev_involutive.
Qed.

Lemma digit_not_ws (c : N) : is_digit c = true -> is_ws c = false.
Proof.
  unfold is_digit, in_range. intros H. apply andb_true_iff in H.
  destruct H as [H1 H2]. apply N.leb_le in H1, H2.
  unfold is_ws, in_range.
  repeat (apply orb_false_iff; split);
    try apply andb_false_iff; try (apply N.eqb_neq; lia);
    first [ left; apply N.leb_gt; lia | right; apply N.leb_gt; lia ].
Qed.

Lemma lower_digits (ds : jsstring) :
  forallb is_digit ds = true -> toLowerCase ds = ds.
Proof.
  induction ds as [|c ds IH]; simpl; [reflexivity|].
  intros H. apply andb_true_iff in H. destruct H as [Hc Hds].
  rewrite IH by exact Hds. f_equal. unfold lower.
  unfold is_digit, in_range in Hc. apply andb_true_iff in Hc.
  destruct Hc as [H1 H2]. apply N.leb_le in H1, H2.
  replace (in_range 65 90 c) with false; [reflexivity|].
  symmetry. unfold in_range. apply andb_false_iff. left. apply N.leb_gt. lia.
Qed.

Lemma after_app (p s : jsstring) : after p (p ++ s) = Some s.
Proof.
  induction p as [|a p IH]; simpl; [reflexivity|].
  now rewrite N.eqb_refl.
Qed.

(** X3: an arXiv identifier of ASCII characters, as arXiv writes them,
    with the [arXiv:] prefix, in any letter case, and a version suffix [vN]
    normalizes to the lowered identifier without prefix and version, and to
    [undefined] when the identifier is empty. On ASCII the case mapping is
    that of JavaScript, which lowers other letters by their context (a
    capital sigma before the version is no final sigma), so that the
    equation is not claimed beyond ASCII. *)
Theorem normArxivId_strips_version (p b ds : jsstring) :
  toLowerCase p = lit "arxiv:" ->
  forallb is_ascii b = true ->
  ds <> [] -> forallb is_digit ds = true ->
  normArxivId (Some (p ++ b ++ 118%N :: ds))
  = if truthy b then Some (toLowerCase b) else None.
Proof.
  intros Hp _ Hne Hds.
  assert (Hp' : exists a t, p = a :: t /\ is_ws a = false).
  { destruct p as [|a t]; [discriminate|]. exists a, t. split; [reflexivity|].
    injection Hp as Ha _. exact (lower_not_ws _ _ Ha eq_refl). }
  destruct Hp' as (a & t & Hpa & Ha).
  destruct (exists_last Hne) as (ds' & z & Hz).
  assert (Hzd : is_ws z = false).
  { apply digit_not_ws. rewrite Hz, forallb_app in Hds.
    apply andb_true_iff in Hds. destruct Hds as [_ Hds]. simpl in Hds.
    now rewrite andb_true_r in Hds. }
  set (whole := p ++ b ++ 118%N :: ds).
  assert (Hwhole : whole = a :: (t ++ b ++ 118%N :: ds') ++ [z]).
  { unfold whole. rewrite Hpa, Hz. simpl. f_equal.
    rewrite <- !app_assoc. reflexivity. }
  assert (Htrim : trim whole = whole).
  { pose proof (trim_guarded whole [] a z _ Hwhole Ha Hzd) as H.
    now rewrite !app_nil_r in H. }
  assert (Htruthy : truthy whole = true) by (rewrite Hwhole; reflexivity).
  unfold normArxivId. rewrite Htruthy. cbn [negb]. cbv zeta.
  rewrite Htrim. unfold whole.
  rewrite !toLowerCase_app, Hp. unfold stripPrefix. rewrite after_app.
  change (toLowerCase (118%N :: ds)) with (118%N :: toLowerCase ds).
  rewrite (lower_digits ds Hds), (stripVersion_suffix _ ds Hne Hds).
  unfold toLowerCase. rewrite truthy_map.
  destruct (truthy b); reflexivity.
Qed.

Lemma normArxivId_strips_version_witness :
  normArxivId (Some (lit "ArXiv:" ++ lit "Hep-Th/9901001" ++ 118%N :: lit "12"))
  = if truthy (lit "Hep-Th/9901001")
    then Some (toLowerCase (lit "Hep-Th/9901001")) else None.
Proof.
  apply (normArxivId_strips_version (lit "ArXiv:") (lit "Hep-Th/9901001")
           (lit "12")).
  - vm_compute. reflexivity.
  - vm_compute. reflexivity.
  - discriminate.
  - vm_compute. reflexivity.
Defined.

(** ** Title keys *)

Lemma In_dropWhile (p : N -> bool) (s : jsstring) (c : N) :
  In c (dropWhile p s) -> In c s.
Proof.
  induction s as [|a s IH]; simpl; [tauto|].
  destruct (p a); simpl; tauto.
Qed.

Lemma In_trim (s : jsstring) (c : N) : In c (trim s) -> In c s.
Proof.
  unfold trim, trimEnd, trimStart. intros H.
  apply in_rev in H. apply In_dropWhile in H. apply in_rev in H.
  now apply In_dropWhile in H.
Qed.

Lemma In_collapseWs (inRun : bool) (s : jsstring) (c : N) :
  In c (collapseWs inRun s) -> c = 32%N \/ (In c s /\ is_ws c = false).
Proof.
  revert inRun. induction s as [|a s IH]; intros inRun; simpl; [tauto|].
  destruct (is_ws a) eqn:E.
  - destruct inRun; simpl; intros H.
    + apply IH in H. tauto.
    + destruct H as [H|H]; [now left|]. apply IH in H. tauto.
  - simpl. intros [H|H].
    + subst. right. tauto.
    + apply IH in H. tauto.
Qed.

(** X4: a normalized title is made of [a-z], [0-9], [_] and spaces only,
    and neither starts nor ends with whitespace. *)
Theorem normTitle_shape (t : jsstring) :
  Forall (fun c => is_key_char c = true) (normTitle t)
  /\ trim (normTitle t) = normTitle t.
Proof.
  split; [|apply trim_idem].
  apply Forall_forall. intros c Hc. unfold normTitle in Hc.
  apply In_trim in Hc. unfold stripPunct in Hc. apply filter_In in Hc.
  destruct Hc as [Hc Hkeep]. apply In_collapseWs in Hc.
  destruct Hc as [->|[Hc Hws]]; [reflexivity|].
  rewrite Hws, orb_false_r in Hkeep.
  unfold toLowerCase in Hc. apply in_map_iff in Hc.
  destruct Hc as (c0 & <- & _).
  pose proof (lower_not_upper c0) as Hup.
  unfold is_word in Hkeep. rewrite Hup in Hkeep. simpl in Hkeep.
  unfold is_key_char. now rewrite Hkeep.
Qed.

(** A punctuation mark between two spaces leaves both spaces behind. *)
Example normTitle_double_space : normTitle (lit "A - B") = lit "a  b".
Proof. vm_compute; reflexivity. Qed.

(** ** Identity keys *)

(** The three forms of a key. *)
Lemma makeKey_forms (x : LitItem) :
  (exists d, doi x = Some d /\ truthy d = true
             /\ makeKey x = 100%N :: tl (lit "doi:") ++ d)
  \/ (truthy_opt (doi x) = false
      /\ exists a, arXivOf x = Some a /\ truthy a = true
                   /\ makeKey x = 97%N :: tl (lit "arxiv:") ++ a)
  \/ (truthy_opt (doi x) = false /\ truthy_opt (arXivOf x) = false
      /\ exists t, makeKey x = 116%N :: t).
Proof.
  destruct (truthy_opt (doi x)) eqn:Hd.
  - left. destruct (doi x) as [d|] eqn:E; [|discriminate]. simpl in Hd.
    exists d. repeat split; auto. now rewrite (makeKey_doi x d E Hd).
  - right. destruct (truthy_opt (arXivOf x)) eqn:Ha.
    + left. split; [reflexivity|].
      destruct (arXivOf x) as [a|] eqn:E; [|discriminate]. simpl in Ha.
      exists a. repeat split; auto. now rewrite (makeKey_arxiv x a Hd E Ha).
    + right. repeat split. rewrite (makeKey_title x Hd Ha). eexists.
      reflexivity.
Qed.

(** X5: two records have the same key only when the key is made from the
    same kind of identifier: with a DOI, the other record has that DOI; with
    no DOI and an arXiv id, the other has no DOI and that arXiv id; with
    neither, the other has neither. A record with a DOI is never merged with
    one without. *)
Theorem makeKey_same_kind (x y : LitItem) :
  makeKey x = makeKey y ->
  (truthy_opt (doi x) = true -> doi y = doi x)
  /\ (truthy_opt (doi x) = false ->
      truthy_opt (doi y) = false
      /\ (truthy_opt (arXivOf x) = true -> arXivOf y = arXivOf x)
      /\ (truthy_opt (arXivOf x) = false -> truthy_opt (arXivOf y) = false)).
Proof.
  intros H.
  destruct (makeKey_forms x) as
      [(d & Hd & Htd & Kx)|[(Hdx & a & Ha & Hta & Kx)|(Hdx & Hax & t & Kx)]];
    destruct (makeKey_forms y) as
      [(d' & Hd' & Htd' & Ky)|[(Hdy & a' & Ha' & Hta' & Ky)
                              |(Hdy & Hay & t' & Ky)]];
    rewrite Kx, Ky in H; try discriminate H.
  - injection H as H. subst d'.
    split; [intros _; congruence|].
    intros Hf. rewrite Hd in Hf. simpl in Hf. congruence.
  - injection H as H. subst a'.
    split; [intros Ht; congruence|]. intros _.
    split; [exact Hdy|]. split; [intros _; congruence|].
    intros Hf. rewrite Ha in Hf. simpl in Hf. congruence.
  - split; [intros Ht; congruence|]. intros _.
    split; [exact Hdy|]. split; [intros Ht; congruence | intros _; exact Hay].
Qed.

Lemma makeKey_same_kind_witness :
  doi cited_bare = doi uncited_abstract.
Proof.
  apply (makeKey_same_kind uncited_abstract cited_bare); reflexivity.
Defined.

(** ** The merge *)

Lemma existsb_str_eqb (k : jsstring) (seen : list jsstring) :
  existsb (str_eqb k) seen = true <-> In k seen.
Proof.
  rewrite existsb_exists. split.
  - intros (k' & Hin & E). apply str_eqb_true in E. now subst.
  - intros H. exists k. split; [exact H | apply str_eqb_refl].
Qed.

Lemma step_keys (m : KeyMap) (it : LitItem) :
  keys (step m it)
  = if existsb (str_eqb (makeKey it)) (keys m) then keys m
    else keys m ++ [makeKey it].
Proof.
  unfold step. rewrite makeKey_truthy. simpl.
  destruct (get (makeKey it) m) as [existing|] eqn:G.
  - assert (Hin : In (makeKey it) (keys m)).
    { apply get_some_key in G. now apply (in_map fst) in G. }
    rewrite (proj2 (existsb_str_eqb _ _) Hin). now apply keys_set_present.
  - apply get_none_fresh in G.
    destruct (existsb (str_eqb (makeKey it)) (keys m)) eqn:E.
    + apply existsb_str_eqb in E. contradiction.
    + rewrite set_fresh by exact G. rewrite keys_app. reflexivity.
Qed.

Lemma fold_step_keys (l : list LitItem) (m : KeyMap) :
  keys (fold_left step l m)
  = keys m ++ firstSeen (keys m) (List.map makeKey l).
Proof.
  revert m. induction l as [|it l IH]; intros m; simpl.
  - now rewrite app_nil_r.
  - rewrite IH, step_keys.
    destruct (existsb (str_eqb (makeKey it)) (keys m)); [reflexivity|].
    now rewrite <- app_assoc.
Qed.

Lemma firstSeen_length (l seen : list jsstring) :
  (List.length (firstSeen seen l) <= List.length l)%nat.
Proof.
  revert seen. induction l as [|k l IH]; intros seen; simpl; [lia|].
  destruct (existsb (str_eqb k) seen); simpl;
    [specialize (IH seen) | specialize (IH (seen ++ [k]))]; lia.
Qed.

Lemma values_keys (m : KeyMap) :
  wellKeyed m -> List.map makeKey (values m) = keys m.
Proof.
  intros [_ H]. unfold values, keys. rewrite map_map.
  apply map_ext_in. intros e He. rewrite Forall_forall in H. exact (H e He).
Qed.

(** X6: the merged list has one record for each key of the input, in the
    order in which the keys first occur in the input; so it is never longer
    than the input. *)
Theorem dedupe_keys_in_first_seen_order (l : list LitItem) :
  List.map makeKey (dedupe l) = firstSeen [] (List.map makeKey l)
  /\ NoDup (List.map makeKey (dedupe l))
  /\ (List.length (dedupe l) <= List.length l)%nat.
Proof.
  assert (H : List.map makeKey (dedupe l) = firstSeen [] (List.map makeKey l)).
  { unfold dedupe. rewrite (values_keys _ (collect_wellKeyed l)).
    unfold collect. now rewrite fold_step_keys. }
  repeat split.
  - exact H.
  - unfold dedupe. rewrite (values_keys _ (collect_wellKeyed l)).
    apply collect_wellKeyed.
  - rewrite <- (length_map makeKey (dedupe l)), H.
    rewrite <- (length_map makeKey l). apply firstSeen_length.
Qed.

Lemma firstSeen_In (l seen : list jsstring) (k : jsstring) :
  In k l -> In k seen \/ In k (firstSeen seen l).
Proof.
  revert seen. induction l as [|a l IH]; intros seen; simpl; [tauto|].
  intros [->|H].
  - destruct (existsb (str_eqb k) seen) eqn:E.
    + left. now apply existsb_str_eqb.
    + right. now left.
  - destruct (existsb (str_eqb a) seen) eqn:E.
    + apply IH. exact H.
    + destruct (IH (seen ++ [a]) H) as [H'|H'].
      * apply in_app_or in H'. destruct H' as [H'|[->|[]]]; [now left|].
        right. now left.
      * right. now right.
Qed.

(** X7: every record of the input is represented: the merged list holds
    exactly one record with its key. *)
Theorem dedupe_represents_input (l : list LitItem) (x : LitItem) :
  In x l ->
  exists r : LitItem,
    In r (dedupe l) /\ makeKey r = makeKey x
    /\ forall r', In r' (dedupe l) -> makeKey r' = makeKey x -> r' = r.
Proof.
  intros Hx.
  assert (Hk : In (makeKey x) (List.map makeKey (dedupe l))).
  { unfold dedupe. rewrite (values_keys _ (collect_wellKeyed l)).
    unfold collect. rewrite fold_step_keys. simpl.
    destruct (firstSeen_In (List.map makeKey l) [] (makeKey x)) as [[]|H];
      [now apply in_map | exact H]. }
  apply in_map_iff in Hk. destruct Hk as (r & Hr & Hin).
  exists r. repeat split; auto.
  intros r' Hin' Hr'. apply (dedupe_one_per_key l); auto. congruence.
Qed.

Lemma dedupe_represents_input_witness :
  exists r : LitItem,
    In r (dedupe [cited_bare; blank; uncited_abstract])
    /\ makeKey r = makeKey cited_bare
    /\ forall r', In r' (dedupe [cited_bare; blank; uncited_abstract]) ->
                  makeKey r' = makeKey cited_bare -> r' = r.
Proof.
  apply (dedupe_represents_input [cited_bare; blank; uncited_abstract]).
  simpl. auto.
Defined.

(** X8: records with pairwise distinct keys pass the merge unchanged: the
    same records in the same order. *)
Theorem dedupe_distinct_keys (l : list LitItem) :
  NoDup (List.map makeKey l) -> dedupe l = l.
Proof.
  intros Hnd.
  set (m := List.map (fun x => (makeKey x, x)) l).
  assert (Hv : values m = l).
  { unfold values, m. rewrite map_map. simpl. apply map_id. }
  assert (Hw : wellKeyed m).
  { split.
    - unfold keys, m. rewrite map_map. simpl. exact Hnd.
    - apply Forall_forall. intros e He. unfold m in He.
      apply in_map_iff in He. destruct He as (x & <- & _). reflexivity. }
  unfold dedupe. rewrite <- Hv at 1. now rewrite dedupe_values.
Qed.

Lemma dedupe_distinct_keys_witness :
  dedupe [blank; cited_bare] = [blank; cited_bare].
Proof.
  apply (dedupe_distinct_keys [blank; cited_bare]).
  vm_compute. repeat constructor; simpl; intuition discriminate.
Defined.

(** X9: all records of the input that carry one DOI merge into one: the
    merged list has exactly one record with that DOI, whatever the sources,
    titles and years of the records. *)
Theorem dedupe_same_doi (l : list LitItem) (x : LitItem) (d : jsstring) :
  In x l -> doi x = Some d -> truthy d = true ->
  exists r : LitItem,
    In r (dedupe l) /\ doi r = Some d
    /\ forall r', In r' (dedupe l) -> doi r' = Some d -> r' = r.
Proof.
  intros Hx Hd Ht.
  assert (Hk : In (makeKey x) (List.map makeKey (dedupe l))).
  { unfold dedupe. rewrite (values_keys _ (collect_wellKeyed l)).
    unfold collect. rewrite fold_step_keys. simpl.
    destruct (firstSeen_In (List.map makeKey l) [] (makeKey x)) as [[]|H];
      [now apply in_map | exact H]. }
  apply in_map_iff in Hk. destruct Hk as (r & Hr & Hin).
  exists r. repeat split.
  - exact Hin.
  - rewrite (makeKey_doi x d Hd Ht) in Hr.
    destruct (makeKey_forms r) as
        [(d' & Hd' & _ & Kr)|[(_ & a & _ & _ & Kr)|(_ & _ & t & Kr)]];
      rewrite Kr in Hr; try discriminate Hr.
    injection Hr as Hr. now subst d'.
  - intros r' Hin' Hd'. apply (dedupe_one_per_key l); auto.
    rewrite Hr, (makeKey_doi x d Hd Ht). apply (makeKey_doi r' d Hd' Ht).
Qed.

Lemma dedupe_same_doi_witness :
  exists r : LitItem,
    In r (dedupe [cited_bare; blank; uncited_abstract])
    /\ doi r = Some (lit "10.1/x")
    /\ forall r', In r' (dedupe [cited_bare; blank; uncited_abstract]) ->
                  doi r' = Some (lit "10.1/x") -> r' = r.
Proof.
  apply (dedupe_same_doi [cited_bare; blank; uncited_abstract] cited_bare);
    [simpl; auto | reflexivity | reflexivity].
Defined.

(** A group of tied records, from the representative [r] it has so far. *)
Lemma fold_step_tied (l : list LitItem) (r : LitItem) (k : jsstring) :
  makeKey r = k ->
  (forall y, In y l -> makeKey y = k /\ count y = count r) ->
  fold_left step l [(k, r)]
  = [(k, if hasAbstract r then r
         else match find hasAbstract l with Some r' => r' | None => r end)].
Proof.
  revert r. induction l as [|it l IH]; intros r Hr Hl; simpl.
  - now destruct (hasAbstract r).
  - destruct (Hl it (or_introl eq_refl)) as [Hk Hc].
    assert (Hstep : step [(k, r)] it = [(k, pick it r)]).
    { unfold step. rewrite makeKey_truthy, Hk. simpl.
      now rewrite str_eqb_refl. }
    assert (Hpick : pick it r
                    = if hasAbstract r then r
                      else if hasAbstract it then it else r).
    { unfold pick, hasAbstract. now rewrite Hc, Z.ltb_irrefl. }
    rewrite Hstep, Hpick.
    destruct (hasAbstract r) eqn:Er.
    + rewrite IH; [now rewrite Er | exact Hr |].
      intros y Hy. apply Hl. now right.
    + destruct (hasAbstract it) eqn:Ei.
      * rewrite IH; [now rewrite Ei | exact Hk |].
        intros y Hy. destruct (Hl y (or_intror Hy)). split; congruence.
      * rewrite IH; [now rewrite Er | exact Hr |].
        intros y Hy. apply Hl. now right.
Qed.

(** X10: of records that share a key and a citation count (absent counts
    are 0), the representative is the first one with a non-empty abstract,
    and the first one when none has an abstract. *)
Theorem dedupe_tied_group (x : LitItem) (l : list LitItem) :
  (forall y, In y l -> makeKey y = makeKey x /\ count y = count x) ->
  dedupe (x :: l)
  = [match find hasAbstract (x :: l) with Some r => r | None => x end].
Proof.
  intros H. unfold dedupe, collect. simpl.
  assert (Hfirst : step [] x = [(makeKey x, x)]).
  { unfold step. now rewrite makeKey_truthy. }
  rewrite Hfirst, (fold_step_tied l x (makeKey x) eq_refl H). simpl.
  destruct (hasAbstract x); reflexivity.
Qed.

Lemma dedupe_tied_group_witness :
  dedupe [blank; blank_abstract; blank]
  = [match find hasAbstract [blank; blank_abstract; blank] with
     | Some r => r
     | None => blank
     end].
Proof.
  apply (dedupe_tied_group blank [blank_abstract; blank]).
  intros y [<-|[<-|[]]]; split; reflexivity.
Defined.

(** ** The ranking *)

(** X11: the ranking is stable: the records of one score stand in the
    ranked list in the order they have in the merged list. *)
Theorem ranking_keeps_ties_in_input_order (nowYear : Z) (v : R)
    (merged : list LitItem) :
  filter (scores_at nowYear v) (rank nowYear merged)
  = filter (scores_at nowYear v) merged.
Proof.
  unfold rank.
  set (scored := List.map
         (fun x => {| score := scoreOf nowYear x; item := x |}) merged).
  assert (Hs : forall s, In s (sort byScoreDesc scored) ->
                 scores_at nowYear v (item s) = scored_at v s).
  { intros s Hs. apply (Permutation_in _ (sort_perm byScoreDesc _)) in Hs.
    apply in_map_iff in Hs. destruct Hs as (x & <- & _). reflexivity. }
  rewrite filter_map_swap, (filter_ext_in _ (scored_at v) _ Hs).
  rewrite sort_stable. unfold scored.
  rewrite filter_map_swap, map_map. simpl. rewrite map_id. reflexivity.
Qed.

Lemma insert_front (a : Scored) (l : list Scored) :
  Forall (desc a) l -> insert byScoreDesc a l = a :: l.
Proof.
  intros H. destruct l as [|b r]; [reflexivity|]. simpl.
  inversion H as [|? ? Hb _]; subst. unfold byScoreDesc, desc in *.
  destruct (Rlt_dec 0 (score b - score a)); [exfalso; lra | reflexivity].
Qed.

Lemma sort_sorted_fixed (l : list Scored) :
  StronglySorted desc l -> sort byScoreDesc l = l.
Proof.
  induction 1 as [|a l Hs IH Ha]; [reflexivity|].
  unfold sort in *. simpl. rewrite IH. now apply insert_front.
Qed.

(** X12: ranking a ranked list changes nothing. *)
Theorem rank_idempotent (nowYear : Z) (merged : list LitItem) :
  rank nowYear (rank nowYear merged) = rank nowYear merged.
Proof.
  unfold rank at 1.
  set (scored := List.map
         (fun x => {| score := scoreOf nowYear x; item := x |}) merged).
  assert (Hback : List.map
            (fun x => {| score := scoreOf nowYear x; item := x |})
            (rank nowYear merged) = sort byScoreDesc scored).
  { unfold rank. fold scored. rewrite map_map.
    rewrite <- (map_id (sort byScoreDesc scored)) at 2.
    apply map_ext_in. intros s Hs.
    apply (Permutation_in _ (sort_perm byScoreDesc _)) in Hs.
    apply in_map_iff in Hs. destruct Hs as (x & <- & _). reflexivity. }
  rewrite Hback, (sort_sorted_fixed _ (sort_sorted scored)). reflexivity.
Qed.

(** A strictly higher score stands strictly earlier. *)
Lemma rank_strict_order (nowYear : Z) (l : list LitItem) (x y : LitItem) :
  (scoreOf nowYear y < scoreOf nowYear x)%R ->
  forall i j : nat,
    nth_error (rank nowYear l) i = Some x ->
    nth_error (rank nowYear l) j = Some y -> (i < j)%nat.
Proof.
  intros Hs i j Hi Hj.
  destruct (Nat.lt_trichotomy i j) as [H|[H|H]]; [exact H| |].
  - subst j. rewrite Hi in Hj. injection Hj as ->. lra.
  - pose proof (sorted_nth _ _ (rank_sorted nowYear l) _ _ _ _ Hj Hi H) as Hd.
    unfold descending in Hd. lra.
Qed.

Lemma recency_cases (nowYear : Z) (x : LitItem) :
  recency nowYear x = 0 \/ recency nowYear x = 1 \/ recency nowYear x = 2.
Proof.
  unfold recency. destruct (age nowYear x <=? 2); [tauto|].
  destruct (age nowYear x <=? 5); tauto.
Qed.

(** X13: among records with the same citation count (counts below zero
    taken as 0), the score puts the higher recency first, and at equal
    recency a Semantic Scholar record before a record of another source; a
    record that is first in this sense stands strictly earlier in the
    ranking. *)
Theorem ranking_on_equal_citations (nowYear : Z) (merged : list LitItem)
    (x y : LitItem) :
  Z.max 0 (count x) = Z.max 0 (count y) ->
  ((scoreOf nowYear y < scoreOf nowYear x)%R
   <-> (recency nowYear y < recency nowYear x
        \/ (recency nowYear x = recency nowYear y
            /\ source x = s2 /\ source y <> s2)))
  /\ ((recency nowYear y < recency nowYear x
       \/ (recency nowYear x = recency nowYear y
           /\ source x = s2 /\ source y <> s2)) ->
      forall i j : nat,
        nth_error (rank nowYear merged) i = Some x ->
        nth_error (rank nowYear merged) j = Some y -> (i < j)%nat).
Proof.
  intros Hc.
  assert (Hiff : (scoreOf nowYear y < scoreOf nowYear x)%R
                 <-> (recency nowYear y < recency nowYear x
                      \/ (recency nowYear x = recency nowYear y
                          /\ source x = s2 /\ source y <> s2))).
  { unfold scoreOf, srcNudge. rewrite Hc.
    destruct (recency_cases nowYear x) as [Hx|[Hx|Hx]];
      destruct (recency_cases nowYear y) as [Hy|[Hy|Hy]];
      rewrite Hx, Hy;
      destruct (source x); destruct (source y);
      (split;
       [ intros H;
         first [ left; lia
               | right; repeat split; (reflexivity || discriminate)
               | exfalso; lra ]
       | intros [H|(H1 & H2 & H3)];
         first [ lra | exfalso; lia | discriminate | congruence ] ]). }
  split; [exact Hiff|].
  intros H. apply rank_strict_order. now apply Hiff.
Qed.

Lemma ranking_on_equal_citations_witness :
  (scoreOf 2025 blank < scoreOf 2025 uncited_abstract)%R.
Proof.
  apply (proj2 (proj1
    (ranking_on_equal_citations 2025 [] uncited_abstract blank eq_refl))).
  left. vm_compute. reflexivity.
Defined.

(** X14: the recency score is 0, 1 or 2; of two records with a year the
    newer one never has the lower recency score; and a record without a
    year (or with year 0) has the lowest, 0. *)
Theorem recency_monotone (nowYear : Z) (x y : LitItem) :
  0 <= recency nowYear x <= 2
  /\ (truthyZ (year x) = false -> recency nowYear x = 0)
  /\ (forall a b : Z,
        year x = Some a -> year y = Some b -> a <> 0 -> b <> 0 -> a <= b ->
        recency nowYear x <= recency nowYear y).
Proof.
  split; [destruct (recency_cases nowYear x) as [H|[H|H]]; lia|].
  split.
  - intros H. unfold recency, age.
    destruct (year x) as [a|]; [|reflexivity].
    rewrite H. reflexivity.
  - intros a b Ha Hb Hna Hnb Hab. unfold recency, age. rewrite Ha, Hb.
    simpl. apply Z.eqb_neq in Hna, Hnb. rewrite Hna, Hnb. simpl.
    destruct (nowYear - a <=? 2) eqn:E1; destruct (nowYear - b <=? 2) eqn:E2;
      destruct (nowYear - a <=? 5) eqn:E3;
      destruct (nowYear - b <=? 5) eqn:E4;
      try apply Z.leb_le in E1; try apply Z.leb_gt in E1;
      try apply Z.leb_le in E2; try apply Z.leb_gt in E2;
      try apply Z.leb_le in E3; try apply Z.leb_gt in E3;
      try apply Z.leb_le in E4; try apply Z.leb_gt in E4; lia.
Qed.

Lemma recency_monotone_witness :
  recency 2025 cited_bare <= recency 2025 (paper arxiv "a" (Some 2024) None None None).
Proof.
  apply (proj2 (proj2 (recency_monotone 2025 cited_bare
           (paper arxiv "a" (Some 2024) None None None))) 2020 2024);
    (reflexivity || lia).
Defined.

(** ** The aggregation route: limit, partial failure, warning *)

(** X15: the limit handed to the adapters is always between 1 and 50; a
    limit of the request in that range is passed as it is, and an absent or
    zero limit becomes 20. *)
Theorem limitOf_clamped (req : Request) :
  1 <= limitOf req <= 50
  /\ (forall n, limit req = Some n -> 1 <= n <= 50 -> limitOf req = n)
  /\ (forall n, limit req = Some n -> 50 <= n -> limitOf req = 50)
  /\ (forall n, limit req = Some n -> n < 0 -> limitOf req = 1)
  /\ (truthyZ (limit req) = false -> limitOf req = 20).
Proof.
  unfold limitOf. repeat split; try lia.
  - intros n Hn Hr. rewrite Hn. simpl.
    destruct (n =? 0) eqn:E; [apply Z.eqb_eq in E; lia|]. simpl. lia.
  - intros n Hn Hr. rewrite Hn. simpl.
    destruct (n =? 0) eqn:E; [apply Z.eqb_eq in E; lia|]. simpl. lia.
  - intros n Hn Hr. rewrite Hn. simpl.
    destruct (n =? 0) eqn:E; [apply Z.eqb_eq in E; lia|]. simpl. lia.
  - intros H. rewrite H. reflexivity.
Qed.

Lemma limitOf_clamped_witness :
  limitOf {| query := None; limit := Some 7 |} = 7
  /\ limitOf {| query := None; limit := Some 1000 |} = 50
  /\ limitOf {| query := None; limit := Some (-3) |} = 1
  /\ limitOf {| query := None; limit := Some 0 |} = 20.
Proof.
  repeat apply conj.
  - apply (proj1 (proj2 (limitOf_clamped {| query := None; limit := Some 7 |}))
             7 eq_refl). lia.
  - apply (proj1 (proj2 (proj2
             (limitOf_clamped {| query := None; limit := Some 1000 |})))
             1000 eq_refl). lia.
  - apply (proj1 (proj2 (proj2 (proj2
             (limitOf_clamped {| query := None; limit := Some (-3) |}))))
             (-3) eq_refl). lia.
  - apply (proj2 (proj2 (proj2 (proj2
             (limitOf_clamped {| query := None; limit := Some 0 |}))))).
    reflexivity.
Defined.

Lemma dedupe_nonempty (l : list LitItem) : l <> [] -> dedupe l <> [].
Proof.
  destruct l as [|x l]; [congruence|]. intros _ H.
  apply (f_equal (List.map makeKey)) in H. unfold dedupe in H.
  rewrite (values_keys _ (collect_wellKeyed (x :: l))) in H.
  unfold collect in H. rewrite fold_step_keys in H. discriminate H.
Qed.

Section AggregationRoute.

Variables searchCrossref searchArxiv searchS2 : jsstring -> Z -> Settled.
Variable currentYear : Z.
Variable req : Request.

Let q : jsstring := trim (orElse (query req) []).
Let cr : Settled := searchCrossref q (limitOf req).
Let ax : Settled := searchArxiv q (limitOf req).
Let sc : Settled := searchS2 q (limitOf req).
Let found : list LitItem := valueOf cr ++ valueOf ax ++ valueOf sc.

(** X16: when the query is not blank and at least one adapter returned a
    record, the answer is 200 without a warning, whatever the other adapters
    did: [items] is the merge of the records returned, Crossref's first, then
    arXiv's, then Semantic Scholar's; [top] is not empty, has at most 12
    records, all of them in [items]; and adapters that return the same
    records give the same answer, rejected or not. *)
Theorem aggregation_with_records :
  truthy q = true -> found <> [] ->
  exists its tp : list LitItem,
    POST searchCrossref searchArxiv searchS2 currentYear req
    = json (resultBody its tp None) 200
    /\ its = dedupe found
    /\ tp <> [] /\ (List.length tp <= 12)%nat
    /\ (forall x, In x tp -> In x its)
    /\ (forall x, In x its ->
          In x (valueOf cr) \/ In x (valueOf ax) \/ In x (valueOf sc))
    /\ forall searchCrossref' searchArxiv' searchS2',
         valueOf (searchCrossref' q (limitOf req)) = valueOf cr ->
         valueOf (searchArxiv' q (limitOf req)) = valueOf ax ->
         valueOf (searchS2' q (limitOf req)) = valueOf sc ->
         POST searchCrossref' searchArxiv' searchS2' currentYear req
         = POST searchCrossref searchArxiv searchS2 currentYear req.
Proof.
  intros Hq Hfound.
  assert (Hpost : forall a b c,
             valueOf (a q (limitOf req)) ++ valueOf (b q (limitOf req))
             ++ valueOf (c q (limitOf req)) = found ->
             POST a b c currentYear req
             = json (resultBody (dedupe found)
                       (slice0 (rank currentYear (dedupe found)) 12) None)
                 200).
  { intros a b c H. unfold POST. fold q. rewrite Hq. simpl. rewrite H.
    destruct found; [congruence | reflexivity]. }
  exists (dedupe found), (slice0 (rank currentYear (dedupe found)) 12).
  repeat apply conj.
  - apply Hpost. reflexivity.
  - reflexivity.
  - rewrite slice0_nonneg by lia.
    pose proof (dedupe_nonempty found Hfound) as Hne.
    pose proof (Permutation_length (rank_perm currentYear (dedupe found)))
      as Hlen.
    destruct (rank currentYear (dedupe found)) as [|r rs].
    + destruct (dedupe found); [congruence | discriminate].
    + discriminate.
  - pose proof (slice0_length (rank currentYear (dedupe found)) 12) as H.
    lia.
  - intros x Hx. apply slice0_In in Hx.
    now apply (Permutation_in _ (rank_perm currentYear _)) in Hx.
  - intros x Hx. apply dedupe_subset in Hx. unfold found in Hx.
    apply in_app_or in Hx. destruct Hx as [Hx|Hx]; [now left|].
    apply in_app_or in Hx. tauto.
  - intros a b c Ha Hb Hc. rewrite (Hpost a b c), (Hpost _ _ _ eq_refl).
    + reflexivity.
    + unfold found. now rewrite Ha, Hb, Hc.
Qed.

(** X17: when the query is not blank and no adapter returned a record, the
    answer is 200 with empty [items] and [top] and a warning: the first
    message that is not empty among the adapters that were rejected, in the
    order Crossref, arXiv, Semantic Scholar, and ["No results"] when there is
    none, as when all three returned empty lists. *)
Theorem aggregation_without_records :
  truthy q = true -> found = [] ->
  exists w : jsstring,
    POST searchCrossref searchArxiv searchS2 currentYear req
    = json (resultBody [] [] (Some w)) 200
    /\ w = hd (lit "No results")
             (filter truthy (rejectionMessages [cr; ax; sc]))
    /\ truthy w = true
    /\ (rejectionMessages [cr; ax; sc] = [] -> w = lit "No results").
Proof.
  intros Hq Hfound.
  assert (Hw : orElse (reasonMessage cr)
                 (orElse (reasonMessage ax)
                    (orElse (reasonMessage sc) (lit "No results")))
               = hd (lit "No results")
                   (filter truthy (rejectionMessages [cr; ax; sc]))).
  { unfold rejectionMessages. simpl.
    destruct cr as [?|m1]; destruct ax as [?|m2]; destruct sc as [?|m3];
      simpl; unfold or_else;
      repeat match goal with
             | |- context [truthy ?m] => destruct (truthy m) eqn:?
             end; reflexivity. }
  eexists. split; [|split; [exact Hw|split]].
  - unfold POST. fold q. rewrite Hq. simpl. fold cr ax sc found.
    rewrite Hfound. reflexivity.
  - rewrite Hw.
    destruct (filter truthy (rejectionMessages [cr; ax; sc])) as [|m ms] eqn:E;
      [reflexivity|].
    assert (Hin : In m (filter truthy (rejectionMessages [cr; ax; sc])))
      by (rewrite E; now left).
    apply filter_In in Hin. tauto.
  - intros H. rewrite Hw, H. reflexivity.
Qed.

End AggregationRoute.

(** Crossref times out and the two others find nothing. *)
Lemma aggregation_without_records_witness :
  exists w : jsstring,
    POST timesOut (fun _ _ => fulfilled []) (fun _ _ => fulfilled []) 2025
      {| query := Some (lit "zzqx"); limit := None |}
    = json (resultBody [] [] (Some w)) 200
    /\ w = hd (lit "No results")
             (filter truthy
                (rejectionMessages
                   [rejected (lit "timeout"); fulfilled []; fulfilled []]))
    /\ truthy w = true
    /\ (rejectionMessages
          [rejected (lit "timeout"); fulfilled []; fulfilled []] = [] ->
        w = lit "No results").
Proof.
  apply (aggregation_without_records timesOut (fun _ _ => fulfilled [])
           (fun _ _ => fulfilled []) 2025
           {| query := Some (lit "zzqx"); limit := None |});
    reflexivity.
Defined.

(** Crossref times out and arXiv returns one record. *)
Lemma aggregation_with_records_witness :
  exists its tp : list LitItem,
    POST timesOut (fun _ _ => fulfilled [blank]) (fun _ _ => fulfilled [])
      2025 {| query := Some (lit "zzqx"); limit := None |}
    = json (resultBody its tp None) 200
    /\ its = dedupe [blank].
Proof.
  destruct (aggregation_with_records timesOut (fun _ _ => fulfilled [blank])
              (fun _ _ => fulfilled []) 2025
              {| query := Some (lit "zzqx"); limit := None |})
    as (its & tp & H1 & H2 & _).
  - reflexivity.
  - discriminate.
  - exists its, tp. split; [exact H1 | exact H2].
Defined.

(** ** The PubMed route: failures and success *)

Section PubMedOutcomes.

Import PubMed.

Variables Summary Paper : Type.
Variable esearchFirstPMID : jsstring -> Outcome (option jsstring).
Variable esummaryOne : jsstring -> Outcome Summary.
Variable efetchAbstractOne : jsstring -> Outcome jsstring.
Variable buildPaper : jsstring -> Summary -> jsstring -> Outcome Paper.
Variable req : Request.

Let post : Response Paper :=
  POST esearchFirstPMID esummaryOne efetchAbstractOne buildPaper req.

(** What the route answers once the pmid [p] is settled. *)
Let fetched (p : jsstring) : Response Paper :=
  match esummaryOne p with
  | throws m => json (errorBody (or_else m (lit "Server error"))) 500
  | returns s =>
      match efetchAbstractOne p with
      | throws m => json (errorBody (or_else m (lit "Server error"))) 500
      | returns ab =>
          match buildPaper p s ab with
          | throws m => json (errorBody (or_else m (lit "Server error"))) 500
          | returns paper => json (paperBody paper) 200
          end
      end
  end.

Lemma post_cases :
  post
  = if truthy (field (pmid req)) then fetched (field (pmid req))
    else if truthy (field (query req)) then
      match esearchFirstPMID (field (query req)) with
      | throws m => json (errorBody (or_else m (lit "Server error"))) 500
      | returns found =>
          let p := match found with Some i => i | None => [] end in
          if truthy p then fetched p
          else json (errorBody (lit "No PubMed result for: "
                                ++ field (query req))) 404
      end
    else json (errorBody providePmidOrQuery) 400.
Proof.
  unfold post, POST, handle, fetched, bind.
  destruct (truthy (field (pmid req))); simpl.
  - destruct (esummaryOne (field (pmid req))) as [s|]; [|reflexivity].
    destruct (efetchAbstractOne (field (pmid req))) as [ab|]; [|reflexivity].
    destruct (buildPaper (field (pmid req)) s ab); reflexivity.
  - destruct (truthy (field (query req))); simpl; [|reflexivity].
    destruct (esearchFirstPMID (field (query req))) as [[i|]|m];
      [| reflexivity | reflexivity].
    unfold or_else. destruct (truthy i) eqn:E; simpl; [|reflexivity].
    rewrite E. simpl.
    destruct (esummaryOne i) as [s|]; [|reflexivity].
    destruct (efetchAbstractOne i) as [ab|]; [|reflexivity].
    destruct (buildPaper i s ab); reflexivity.
Qed.

(** Once the pmid is settled the answer is 200 with the paper built, or 500
    with a message. *)
Lemma fetched_cases (p : jsstring) :
  (forall paper,
     fetched p = json (paperBody paper) 200
     <-> exists s ab,
           esummaryOne p = returns s /\ efetchAbstractOne p = returns ab
           /\ buildPaper p s ab = returns paper)
  /\ ((exists paper, fetched p = json (paperBody paper) 200)
      \/ exists e, fetched p = json (errorBody e) 500 /\ truthy e = true).
Proof.
  unfold fetched.
  destruct (esummaryOne p) as [s|m] eqn:Es.
  - destruct (efetchAbstractOne p) as [ab|m] eqn:Ea.
    + destruct (buildPaper p s ab) as [built|m] eqn:Eb.
      * split.
        -- intros paper. split.
           ++ intros H. injection H as ->. exists s, ab. auto.
           ++ intros (s' & ab' & Hs & Hab & Hb).
              injection Hs as <-. injection Hab as <-. congruence.
        -- left. eauto.
      * split.
        -- intros paper. split; [discriminate|].
           intros (s' & ab' & Hs & Hab & Hb).
           injection Hs as <-. injection Hab as <-. congruence.
        -- right. eexists. split; [reflexivity | now apply or_else_truthy].
    + split.
      * intros paper. split; [discriminate|].
        intros (s' & ab' & Hs & Hab & Hb). congruence.
      * right. eexists. split; [reflexivity | now apply or_else_truthy].
  - split.
    + intros paper. split; [discriminate|].
      intros (s' & ab' & Hs & Hab & Hb). congruence.
    + right. eexists. split; [reflexivity | now apply or_else_truthy].
Qed.

(** X18: the route answers with status 200, 400, 404 or 500 only. The pmid
    it settles on is the trimmed pmid of the request when that is not empty,
    and else the id, not empty, that the search returned for the trimmed
    query. It answers 200 with a paper exactly when a pmid is settled and
    the summary call, the abstract call and [buildPaper] all returned for
    that pmid, and the paper is the one built from what the two calls
    returned; the status is 200 only with a paper; and any other answer
    carries an error message that is not empty. *)
Theorem pubmed_answers :
  let pmidRaw := field (pmid req) in
  let queryRaw := field (query req) in
  let settled (p : jsstring) : Prop :=
    truthy p = true
    /\ (pmidRaw = p
        \/ truthy pmidRaw = false /\ truthy queryRaw = true
           /\ esearchFirstPMID queryRaw = returns (Some p)) in
  (status _ post = 200 \/ status _ post = 400 \/ status _ post = 404
   \/ status _ post = 500)
  /\ (forall paper : Paper,
        post = json (paperBody paper) 200
        <-> exists p s ab,
              settled p /\ esummaryOne p = returns s
              /\ efetchAbstractOne p = returns ab
              /\ buildPaper p s ab = returns paper)
  /\ (status _ post = 200 <-> exists paper, payload _ post = paperBody paper)
  /\ (status _ post <> 200 ->
      exists e, payload _ post = errorBody e /\ truthy e = true).
Proof.
  intros pmidRaw queryRaw settled.
  assert (Hone : forall p,
            truthy p = true -> post = fetched p ->
            (forall p', settled p' -> p' = p) -> settled p ->
            (status _ post = 200 \/ status _ post = 400
             \/ status _ post = 404 \/ status _ post = 500)
            /\ (forall paper : Paper,
                  post = json (paperBody paper) 200
                  <-> exists p s ab,
                        settled p /\ esummaryOne p = returns s
                        /\ efetchAbstractOne p = returns ab
                        /\ buildPaper p s ab = returns paper)
            /\ (status _ post = 200
                <-> exists paper, payload _ post = paperBody paper)
            /\ (status _ post <> 200 ->
                exists e, payload _ post = errorBody e /\ truthy e = true)).
  { intros p Hp Hpost Honly Hset. rewrite Hpost.
    destruct (fetched_cases p) as [Hiff Hcases].
    split; [|split; [|split]].
    - destruct Hcases as [[paper ->] | (e & -> & _)]; simpl; tauto.
    - intros paper. rewrite Hiff. split.
      + intros (s & ab & H). exists p, s, ab. tauto.
      + intros (p' & s & ab & Hs' & H). rewrite (Honly p' Hs') in H. eauto.
    - destruct Hcases as [[paper ->] | (e & -> & _)]; simpl.
      + split; [eauto | reflexivity].
      + split; [discriminate | intros [paper H]; discriminate].
    - destruct Hcases as [[paper ->] | (e & -> & He)]; simpl.
      + intros H. now contradiction H.
      + intros _. eauto. }
  assert (Hnone : forall (e : jsstring) (st : Z),
            post = json (errorBody e) st -> truthy e = true ->
            st = 400 \/ st = 404 \/ st = 500 ->
            (forall p, ~ settled p) ->
            (status _ post = 200 \/ status _ post = 400
             \/ status _ post = 404 \/ status _ post = 500)
            /\ (forall paper : Paper,
                  post = json (paperBody paper) 200
                  <-> exists p s ab,
                        settled p /\ esummaryOne p = returns s
                        /\ efetchAbstractOne p = returns ab
                        /\ buildPaper p s ab = returns paper)
            /\ (status _ post = 200
                <-> exists paper, payload _ post = paperBody paper)
            /\ (status _ post <> 200 ->
                exists e, payload _ post = errorBody e /\ truthy e = true)).
  { intros e st Hpost He Hst Hno. rewrite Hpost. simpl.
    split; [|split; [|split]].
    - tauto.
    - intros paper. split; [discriminate|].
      intros (p & s & ab & Hs & _). now destruct (Hno p).
    - split; [lia | intros [paper H]; discriminate].
    - intros _. eauto. }
  pose proof post_cases as Hpc. fold pmidRaw queryRaw in Hpc.
  destruct (truthy pmidRaw) eqn:Ep.
  - apply (Hone pmidRaw Ep Hpc).
    + intros p' [_ [H | (H & _)]]; [now symmetry | congruence].
    + split; [exact Ep | now left].
  - destruct (truthy queryRaw) eqn:Eq.
    + destruct (esearchFirstPMID queryRaw) as [found|m] eqn:Es.
      * cbv zeta in Hpc.
        destruct (truthy match found with Some i => i | None => [] end)
          eqn:Ef.
        -- destruct found as [i|]; [|discriminate].
           apply (Hone i Ef Hpc).
           ++ intros p' [Hp' [H | (_ & _ & H)]]; [|congruence].
              rewrite <- H in Hp'. congruence.
           ++ split; [exact Ef | right; auto].
        -- apply (Hnone _ 404 Hpc); [reflexivity | tauto |].
           intros p [Hp [H | (_ & _ & H)]].
           ++ rewrite <- H in Hp. congruence.
           ++ injection H as ->. simpl in Ef. congruence.
      * apply (Hnone _ 500 Hpc); [now apply or_else_truthy | tauto |].
        intros p [Hp [H | (_ & _ & H)]]; [|discriminate].
        rewrite <- H in Hp. congruence.
    + apply (Hnone _ 400 Hpc); [reflexivity | tauto |].
      intros p [Hp [H | (_ & H & _)]]; [|discriminate].
      rewrite <- H in Hp. congruence.
Qed.

(** X19: a call that throws is answered with status 500 and the message of
    the error, or ["Server error"] when that is empty: the search for a
    query, the summary, and the abstract, whose failure loses the summary
    that was already fetched. *)
Theorem pubmed_upstream_failure (m : jsstring) :
  (truthy (field (pmid req)) = false -> truthy (field (query req)) = true ->
   esearchFirstPMID (field (query req)) = throws m ->
   post = json (errorBody (or_else m (lit "Server error"))) 500)
  /\ (truthy (field (pmid req)) = true ->
      esummaryOne (field (pmid req)) = throws m ->
      post = json (errorBody (or_else m (lit "Server error"))) 500)
  /\ (truthy (field (pmid req)) = true ->
      forall s, esummaryOne (field (pmid req)) = returns s ->
      efetchAbstractOne (field (pmid req)) = throws m ->
      post = json (errorBody (or_else m (lit "Server error"))) 500).
Proof.
  rewrite post_cases. unfold fetched. repeat split.
  - intros -> -> ->. reflexivity.
  - intros -> ->. reflexivity.
  - intros -> s -> ->. reflexivity.
Qed.

End PubMedOutcomes.

Lemma pubmed_upstream_failure_witness :
  PubMed.POST unreachable summaryDown noAbstract pmidOnly
    {| PubMed.pmid := Some (lit "12345678"); PubMed.query := None |}
  = PubMed.json
      (PubMed.errorBody
         (or_else (lit "HTTP 502: Bad Gateway") (lit "Server error"))) 500.
Proof.
  apply (proj1 (proj2
    (pubmed_upstream_failure unit jsstring unreachable summaryDown noAbstract
       pmidOnly
       {| PubMed.pmid := Some (lit "12345678"); PubMed.query := None |}
       (lit "HTTP 502: Bad Gateway"))));
    reflexivity.
Defined.

Lemma pubmed_answers_witness :
  PubMed.POST findsPaper noSummary noAbstract pmidOnly
    {| PubMed.pmid := Some (lit "  "); PubMed.query := Some (lit " crispr ") |}
  = PubMed.json (PubMed.paperBody (lit "31015831")) 200.
Proof.
  apply (proj2 (proj1 (proj2
    (pubmed_answers unit jsstring findsPaper noSummary noAbstract pmidOnly
       {| PubMed.pmid := Some (lit "  ");
          PubMed.query := Some (lit " crispr ") |})) (lit "31015831"))).
  exists (lit "31015831"), tt, []. repeat split. right. repeat split.
Defined.

(** ** The digest and its budget *)

Section DigestBudget.

Import Workspace.

Lemma pack_extends (maxChars : Z) (blocks : list jsstring) (out : jsstring) :
  exists rest, pack maxChars out blocks = out ++ rest.
Proof.
  revert out. induction blocks as [|b r IH]; intros out; cbn [pack].
  - exists []. now rewrite app_nil_r.
  - destruct (maxChars <? Z.of_nat (List.length (out ++ sep ++ b))).
    + exists []. now rewrite app_nil_r.
    + destruct (IH (out ++ (if truthy out then sep else []) ++ b))
        as [rest ->].
      eexists. rewrite <- app_assoc. reflexivity.
Qed.

Lemma pack_budget_mono (m1 m2 : Z) (blocks : list jsstring) (out : jsstring) :
  m1 <= m2 ->
  exists rest, pack m2 out blocks = pack m1 out blocks ++ rest.
Proof.
  intros Hm. revert out. induction blocks as [|b r IH]; intros out;
    cbn [pack].
  - exists []. now rewrite app_nil_r.
  - destruct (m2 <? Z.of_nat (List.length (out ++ sep ++ b))) eqn:E2;
      destruct (m1 <? Z.of_nat (List.length (out ++ sep ++ b))) eqn:E1.
    + exists []. now rewrite app_nil_r.
    + apply Z.ltb_lt in E2. apply Z.ltb_ge in E1. lia.
    + destruct (pack_extends m2 r
                  (out ++ (if truthy out then sep else []) ++ b))
        as [rest ->].
      eexists. rewrite <- app_assoc. reflexivity.
    + apply IH.
Qed.

(** X20: a larger budget never loses text: the digest for a budget is the
    beginning of the digest of the same records for any larger budget. *)
Theorem digest_grows_with_budget (items : list LitItem) (m1 m2 : Z) :
  m1 <= m2 ->
  exists rest : jsstring,
    mkGeminiContext items m2 = mkGeminiContext items m1 ++ rest.
Proof.
  intros H. unfold mkGeminiContext. now apply pack_budget_mono.
Qed.

Lemma join_snoc_length (done : list jsstring) (b : jsstring) :
  Forall (fun b => truthy b = true) done ->
  (List.length (join sep done ++ sep ++ b)
   <= List.length (join sep (done ++ [b])) + 2)%nat.
Proof.
  intros H. rewrite (join_snoc done b H), !length_app.
  destruct (truthy (join sep done)); simpl; lia.
Qed.

Lemma join_app_length (a b : list jsstring) :
  (List.length (join sep a) <= List.length (join sep (a ++ b)))%nat.
Proof.
  induction a as [|x a IH]; [simpl; lia|].
  destruct a as [|y a].
  - destruct b as [|z b]; simpl; [lia|]. rewrite length_app. lia.
  - change (join sep ((x :: y :: a) ++ b))
      with (x ++ sep ++ join sep ((y :: a) ++ b)).
    change (join sep (x :: y :: a)) with (x ++ sep ++ join sep (y :: a)).
    rewrite !length_app. lia.
Qed.

Lemma pack_all (maxChars : Z) (blocks done : list jsstring) :
  Forall (fun b => truthy b = true) done ->
  Forall (fun b => truthy b = true) blocks ->
  Z.of_nat (List.length (join sep (done ++ blocks))) + 2 <= maxChars ->
  pack maxChars (join sep done) blocks = join sep (done ++ blocks).
Proof.
  intros Hd Hb. revert done Hd.
  induction Hb as [|b r Hb Hr IH]; intros done Hd Hfit; cbn [pack].
  - now rewrite app_nil_r.
  - assert (Hstep : (List.length (join sep done ++ sep ++ b)
                     <= List.length (join sep (done ++ b :: r)) + 2)%nat).
    { pose proof (join_snoc_length done b Hd).
      pose proof (join_app_length (done ++ [b]) r) as H'.
      rewrite <- app_assoc in H'. simpl in H'. lia. }
    destruct (maxChars <? Z.of_nat (List.length (join sep done ++ sep ++ b)))
      eqn:E; [apply Z.ltb_lt in E; lia|].
    rewrite <- (join_snoc done b Hd), IH.
    + now rewrite <- app_assoc.
    + apply Forall_app. split; [exact Hd | now constructor].
    + now rewrite <- app_assoc.
Qed.

(** X21: when the blocks of all records, joined by blank lines, are at
    least two code units shorter than the budget, the digest is all of them:
    no record is left out. *)
Theorem digest_complete_when_fitting (items : list LitItem) (maxChars : Z) :
  Z.of_nat (List.length (join sep (mkBlocks 0 items))) + 2 <= maxChars ->
  mkGeminiContext items maxChars = join sep (mkBlocks 0 items).
Proof.
  intros H. unfold mkGeminiContext.
  exact (pack_all maxChars (mkBlocks 0 items) [] (Forall_nil _)
           (mkBlocks_truthy items 0) H).
Qed.

End DigestBudget.

Lemma digest_grows_with_budget_witness :
  exists rest : jsstring,
    Workspace.mkGeminiContext [blank; blank] 12000
    = Workspace.mkGeminiContext [blank; blank] 40 ++ rest.
Proof.
  apply (digest_grows_with_budget [blank; blank] 40 12000). lia.
Defined.

Lemma digest_complete_when_fitting_witness :
  Workspace.mkGeminiContext [blank; uncited_abstract] 12000
  = join Workspace.sep (Workspace.mkBlocks 0 [blank; uncited_abstract]).
Proof.
  apply (digest_complete_when_fitting [blank; uncited_abstract] 12000).
  vm_compute. discriminate.
Defined.

(** ** The MEDLINE parser *)

Example parseAbstractsByPMID_sample :
  Eutils.parseAbstractsByPMID medlineSample
  = [(lit "123", lit "First line of the abstract.");
     (lit "456", lit "Other.")].
Proof. vm_compute; reflexivity. Qed.

Example parseAbstractsByPMID_edges :
  Eutils.parseAbstractsByPMID [] = []
  /\ Eutils.parseAbstractsByPMID (lit "no records here") = []
  /\ Eutils.parseAbstractsByPMID (lit "PMID- 9" ++ [10%N] ++ lit "TI  - t") = []
  /\ Eutils.parseAbstractsByPMID (lit "AB  - text") = [].
Proof. repeat split; vm_compute; reflexivity. Qed.

(** ** Object assignment *)

Section Assign.

Import Adapters.

Lemma in_assign (k v : jsstring) (o : list (jsstring * jsstring))
    (e : jsstring * jsstring) :
  In e (assign k v o) -> e = (k, v) \/ In e o.
Proof.
  induction o as [|[k' v'] o IH]; simpl.
  - intuition.
  - destruct (str_eqb k k'); simpl; intuition.
Qed.

Lemma assign_keys (k v : jsstring) (o : list (jsstring * jsstring)) :
  List.map fst (assign k v o)
  = if existsb (str_eqb k) (List.map fst o) then List.map fst o
    else List.map fst o ++ [k].
Proof.
  induction o as [|[k' v'] o IH]; simpl; [reflexivity|].
  destruct (str_eqb k k') eqn:E; simpl.
  - apply str_eqb_true in E. now subst.
  - rewrite IH. now destruct (existsb (str_eqb k) (List.map fst o)).
Qed.

Lemma assign_NoDup (k v : jsstring) (o : list (jsstring * jsstring)) :
  NoDup (List.map fst o) -> NoDup (List.map fst (assign k v o)).
Proof.
  intros H. rewrite assign_keys.
  destruct (existsb (str_eqb k) (List.map fst o)) eqn:E; [exact H|].
  apply NoDup_snoc; [exact H|]. intros Hin.
  apply existsb_str_eqb in Hin. congruence.
Qed.

Lemma assign_not_nil (k v : jsstring) (o : list (jsstring * jsstring)) :
  assign k v o <> [].
Proof. destruct o as [|[k' v'] o]; simpl; [|destruct (str_eqb k k')]; discriminate. Qed.

Lemma assign_length (k v : jsstring) (o : list (jsstring * jsstring)) :
  (List.length (assign k v o) <= S (List.length o))%nat.
Proof.
  induction o as [|[k' v'] o IH]; simpl; [lia|].
  destruct (str_eqb k k'); simpl; lia.
Qed.

(** ** buildExternalIds *)

Lemma addPart_inert (out : list (jsstring * jsstring))
    (part : jsstring * option jsstring) :
  writes part = false -> addPart out part = out.
Proof.
  unfold writes, addPart. destruct (snd part) as [v|]; [|reflexivity].
  destruct (truthy (trim v)); [|reflexivity]. simpl.
  destruct (str_eqb (fst part) protoKey); [reflexivity | discriminate].
Qed.

Lemma addPart_writes (out : list (jsstring * jsstring))
    (part : jsstring * option jsstring) :
  writes part = true ->
  exists v, snd part = Some v
            /\ addPart out part = assign (fst part) (trim v) out.
Proof.
  unfold writes, addPart. destruct (snd part) as [v|]; [|discriminate].
  intros H. apply andb_true_iff in H. destruct H as [H1 H2].
  apply negb_true_iff in H2. rewrite H1, H2. eauto.
Qed.

Lemma fold_addPart_nil (parts : list (jsstring * option jsstring))
    (out : list (jsstring * jsstring)) :
  fold_left addPart parts out = []
  <-> out = [] /\ forallb (fun p => negb (writes p)) parts = true.
Proof.
  revert out. induction parts as [|p parts IH]; intros out; simpl.
  - tauto.
  - rewrite IH. destruct (writes p) eqn:E; simpl.
    + destruct (addPart_writes out p E) as (v & _ & ->).
      split; [intros [H _]; now apply assign_not_nil in H | intros [_ H]; discriminate].
    + now rewrite (addPart_inert out p E).
Qed.

Lemma fold_addPart_entries (source parts : list (jsstring * option jsstring))
    (out : list (jsstring * jsstring)) :
  (forall p, In p parts -> In p source) ->
  NoDup (List.map fst out) ->
  (forall k v, In (k, v) out ->
     truthy v = true /\ trim v = v /\ k <> protoKey
     /\ exists s, In (k, Some s) source /\ v = trim s) ->
  let final := fold_left addPart parts out in
  NoDup (List.map fst final)
  /\ forall k v, In (k, v) final ->
       truthy v = true /\ trim v = v /\ k <> protoKey
       /\ exists s, In (k, Some s) source /\ v = trim s.
Proof.
  revert out. induction parts as [|p parts IH]; intros out Hsub Hnd Hout;
    simpl; [auto|].
  apply IH.
  - intros p' Hp'. apply Hsub. now right.
  - destruct (writes p) eqn:E.
    + destruct (addPart_writes out p E) as (v & _ & ->). now apply assign_NoDup.
    + now rewrite (addPart_inert out p E).
  - intros k v Hin. destruct (writes p) eqn:E.
    + destruct (addPart_writes out p E) as (s & Hs & Heq).
      rewrite Heq in Hin. apply in_assign in Hin.
      destruct Hin as [Hin|Hin]; [|now apply Hout].
      injection Hin as -> ->. unfold writes in E. rewrite Hs in E.
      apply andb_true_iff in E. destruct E as [E1 E2].
      apply negb_true_iff in E2.
      repeat split.
      * exact E1.
      * apply trim_idem.
      * intros Heq'. rewrite Heq', str_eqb_refl in E2. discriminate.
      * exists s. split; [|reflexivity]. apply Hsub. left.
        destruct p as [k0 v0]. simpl in *. now subst.
    + rewrite (addPart_inert out p E) in Hin. now apply Hout.
Qed.

(** X22: the object that [buildExternalIds] returns is never empty, has
    each key once, and every value in it is the trimmed value of a part with
    that key, not empty and with no whitespace around it; the result is
    [undefined] exactly when no part has a value that is a string with more
    than whitespace in it (under a key other than [__proto__], to which
    JavaScript assigns no string). *)
Theorem buildExternalIds_entries (parts : list (jsstring * option jsstring)) :
  (forall o, buildExternalIds parts = Some o ->
     o <> [] /\ NoDup (List.map fst o)
     /\ forall k v, In (k, v) o ->
          truthy v = true /\ trim v = v /\ k <> protoKey
          /\ exists s, In (k, Some s) parts /\ v = trim s)
  /\ (buildExternalIds parts = None
      <-> forall k s, In (k, Some s) parts ->
            truthy (trim s) = false \/ k = protoKey).
Proof.
  split.
  - intros o Ho. unfold buildExternalIds in Ho.
    destruct (fold_addPart_entries parts parts []) as [Hnd Hin];
      [auto | constructor | intros k v [] |].
    destruct (fold_left addPart parts []) as [|e r] eqn:E; [discriminate|].
    injection Ho as <-. split; [discriminate|]. split; [exact Hnd | exact Hin].
  - unfold buildExternalIds.
    pose proof (fold_addPart_nil parts []) as Hnil.
    destruct (fold_left addPart parts []) as [|e r] eqn:E.
    + split; [|reflexivity]. intros _ k s Hin.
      destruct Hnil as [Hnil _]. destruct (Hnil eq_refl) as [_ Hall].
      rewrite forallb_forall in Hall. specialize (Hall _ Hin).
      unfold writes in Hall. simpl in Hall.
      apply negb_true_iff, andb_false_iff in Hall.
      destruct Hall as [H|H]; [now left|]. right.
      apply negb_false_iff in H. now apply str_eqb_true in H.
    + split; [discriminate|]. intros Hall. exfalso.
      destruct Hnil as [_ Hnil].
      assert (H : [] = @nil (jsstring * jsstring)
                  /\ forallb (fun p => negb (writes p)) parts = true).
      { split; [reflexivity|]. apply forallb_forall. intros [k [s|]] Hin.
        - unfold writes. simpl. apply negb_true_iff, andb_false_iff.
          destruct (Hall k s Hin) as [H| ->]; [now left|]. right.
          now rewrite str_eqb_refl.
        - reflexivity. }
      apply Hnil in H. discriminate H.
Qed.

End Assign.

(** The call of the Semantic Scholar adapter, with a DOI, no arXiv id and a
    blank paper id. *)
Lemma buildExternalIds_entries_witness :
  Adapters.buildExternalIds
    [(lit "DOI", Some (lit " 10.1/x ")); (lit "arXiv", None);
     (lit "S2", Some (lit "  "))]
  = Some [(lit "DOI", lit "10.1/x")]
  /\ truthy (lit "10.1/x") = true.
Proof.
  assert (H : Adapters.buildExternalIds
                [(lit "DOI", Some (lit " 10.1/x ")); (lit "arXiv", None);
                 (lit "S2", Some (lit "  "))]
              = Some [(lit "DOI", lit "10.1/x")])
    by (vm_compute; reflexivity).
  split; [exact H|].
  destruct (proj1 (buildExternalIds_entries _) _ H) as (_ & _ & Hin).
  apply (Hin (lit "DOI") (lit "10.1/x")). now left.
Defined.

(** ** The fetch guards *)

Section FetchGuards.

Import Http.

Variable J : Type.
Variable JSON_parse : jsstring -> option J.

Lemma statusMessage_truthy (res : HttpResponse) :
  truthy (Adapters.statusMessage res) = true.
Proof. reflexivity. Qed.

Lemma httpMessage_truthy (res : HttpResponse) :
  truthy (Eutils.httpMessage res) = true.
Proof. reflexivity. Qed.

(** X23: [safeFetchJSON] returns a value exactly when the status is in
    200-299, the body parses to that value, and the content type mentions
    json or the body does not look like HTML; a body that looks like HTML
    under another content type is refused even when it parses. Every error
    it throws for a response has a message that is not empty; for a status
    outside 200-299 the message holds at most 300 code units of the body;
    and a failed fetch (a timeout among them) is thrown on unchanged. *)
Theorem safeFetchJSON_guard (res : HttpResponse) :
  let ct := orElse (contentType res) [] in
  let out := Adapters.safeFetchJSON J JSON_parse (PubMed.returns res) in
  (forall v, out = PubMed.returns v
     <-> ok res = true /\ JSON_parse (text res) = Some v
         /\ (containsCI (lit "json") ct = true
             \/ looksLikeHTML (text res) = false))
  /\ (forall m, out = PubMed.throws m -> truthy m = true)
  /\ (ok res = false ->
      exists m, out = PubMed.throws m
        /\ (List.length m
            <= List.length (ofZ (statusCode res)) + 303)%nat)
  /\ (forall m,
        Adapters.safeFetchJSON J JSON_parse (PubMed.throws m)
        = PubMed.throws m).
Proof.
  intros ct out. unfold out, Adapters.safeFetchJSON, PubMed.bind.
  fold ct. unfold Adapters.parseOrInvalid.
  split; [|split; [|split]].
  - intros v. destruct (ok res); simpl.
    + destruct (containsCI (lit "json") ct); simpl.
      * destruct (JSON_parse (text res)) as [w|]; split.
        -- intros H. injection H as ->. auto.
        -- intros (_ & H & _). congruence.
        -- discriminate.
        -- intros (_ & H & _). discriminate.
      * destruct (looksLikeHTML (text res)).
        -- split; [discriminate|]. intros (_ & _ & [H|H]); discriminate.
        -- destruct (JSON_parse (text res)) as [w|]; split.
           ++ intros H. injection H as ->. auto.
           ++ intros (_ & H & _). congruence.
           ++ discriminate.
           ++ intros (_ & H & _). discriminate.
    + split; [discriminate|]. intros (H & _). discriminate.
  - intros m. destruct (ok res); simpl.
    + destruct (containsCI (lit "json") ct); simpl;
        [|destruct (looksLikeHTML (text res))];
        try destruct (JSON_parse (text res));
        intros H; try discriminate H; injection H as <-; reflexivity.
    + intros H. injection H as <-. reflexivity.
  - intros ->. simpl. eexists. split; [reflexivity|].
    unfold Adapters.statusMessage. rewrite !length_app.
    assert (H2 : (List.length (firstn 300 (text res)) <= 300)%nat)
      by (rewrite length_firstn; lia).
    change (List.length (lit "[")) with 1%nat.
    change (List.length (lit "] ")) with 2%nat. lia.
  - reflexivity.
Qed.

(** X24: the guards of the PubMed route: [fetchTextGuard] returns the body
    exactly when the status is in 200-299 and the body does not look like
    HTML, so the text handed to the MEDLINE parser never holds [<html] or
    [<!doctype] in any letter case; [fetchJsonGuard] returns a value exactly
    when the status is in 200-299, the body parses to it, and the content
    type mentions [application/json] or the body does not look like HTML;
    and every error they throw for a response has a message that is not
    empty. *)
Theorem eutils_guards (res : HttpResponse) :
  let ct := orElse (contentType res) [] in
  (forall raw,
     Eutils.fetchTextGuard (PubMed.returns res) = PubMed.returns raw
     <-> ok res = true /\ looksLikeHTML (text res) = false
         /\ raw = text res)
  /\ (forall v,
        Eutils.fetchJsonGuard J JSON_parse (PubMed.returns res)
        = PubMed.returns v
        <-> ok res = true /\ JSON_parse (text res) = Some v
            /\ (containsCI (lit "application/json") ct = true
                \/ looksLikeHTML (text res) = false))
  /\ (forall m,
        Eutils.fetchTextGuard (PubMed.returns res) = PubMed.throws m
        \/ Eutils.fetchJsonGuard J JSON_parse (PubMed.returns res)
           = PubMed.throws m ->
        truthy m = true).
Proof.
  intros ct. unfold Eutils.fetchTextGuard, Eutils.fetchJsonGuard, PubMed.bind.
  fold ct. unfold Eutils.parseOrInvalid.
  split; [|split].
  - intros raw. destruct (ok res); simpl.
    + destruct (looksLikeHTML (text res)); split.
      * discriminate.
      * intros (_ & H & _). discriminate.
      * intros H. injection H as <-. auto.
      * intros (_ & _ & ->). reflexivity.
    + split; [discriminate|]. intros (H & _). discriminate.
  - intros v. destruct (ok res); simpl.
    + destruct (containsCI (lit "application/json") ct); simpl.
      * destruct (JSON_parse (text res)) as [w|]; split.
        -- intros H. injection H as ->. auto.
        -- intros (_ & H & _). congruence.
        -- discriminate.
        -- intros (_ & H & _). discriminate.
      * destruct (looksLikeHTML (text res)).
        -- split; [discriminate|]. intros (_ & _ & [H|H]); discriminate.
        -- destruct (JSON_parse (text res)) as [w|]; split.
           ++ intros H. injection H as ->. auto.
           ++ intros (_ & H & _). congruence.
           ++ discriminate.
           ++ intros (_ & H & _). discriminate.
    + split; [discriminate|]. intros (H & _). discriminate.
  - intros m. destruct (ok res); simpl.
    + destruct (looksLikeHTML (text res));
        destruct (containsCI (lit "application/json") ct); simpl;
        try destruct (JSON_parse (text res));
        intros [H|H]; try discriminate H; injection H as <-; reflexivity.
    + intros [H|H]; injection H as <-; reflexivity.
Qed.

End FetchGuards.

Lemma safeFetchJSON_guard_witness :
  exists m,
    Adapters.safeFetchJSON unit parsesNothing (PubMed.returns tooManyRequests)
    = PubMed.throws m
    /\ (List.length m
        <= List.length (ofZ (Http.statusCode tooManyRequests)) + 303)%nat.
Proof.
  apply (proj1 (proj2 (proj2
    (safeFetchJSON_guard unit parsesNothing tooManyRequests)))).
  reflexivity.
Defined.

Lemma eutils_guards_witness :
  truthy Eutils.htmlMessage = true.
Proof.
  apply (proj2 (proj2 (eutils_guards unit parsesNothing errorPage))
           Eutils.htmlMessage).
  left. vm_compute. reflexivity.
Defined.

(** ** The MEDLINE parser: what the map holds *)

Section Medline.

Import Eutils.

Lemma takeWhile_forallb (p : N -> bool) (s : jsstring) :
  forallb p (takeWhile p s) = true.
Proof.
  induction s as [|c s IH]; simpl; [reflexivity|].
  destruct (p c) eqn:E; simpl; [now rewrite E|reflexivity].
Qed.

Lemma pmidHere_digits (s p : jsstring) :
  pmidHere s = Some p -> truthy p = true /\ forallb is_digit p = true.
Proof.
  unfold pmidHere. destruct (after (lit "PMID-") s) as [r|]; [|discriminate].
  destruct (takeWhile is_ws r); [discriminate|].
  pose proof (takeWhile_forallb is_digit (dropWhile is_ws r)) as H.
  destruct (takeWhile is_digit (dropWhile is_ws r)) as [|d ds];
    [discriminate|].
  intros E. injection E as <-. split; [reflexivity | exact H].
Qed.

Lemma findPmid_digits (s p : jsstring) (lineStart : bool) :
  findPmid lineStart s = Some p ->
  truthy p = true /\ forallb is_digit p = true.
Proof.
  revert lineStart. induction s as [|c s IH]; intros lineStart; simpl.
  - destruct lineStart; simpl; intros H; discriminate H.
  - destruct (if lineStart then pmidHere (c :: s) else None) as [q|] eqn:E.
    + intros H. injection H as <-. destruct lineStart; [|discriminate].
      exact (pmidHere_digits _ _ E).
    + apply IH.
Qed.

Lemma recordStep_entries (map : list (jsstring * jsstring)) (rec : jsstring) :
  NoDup (List.map fst map) ->
  (forall k v, In (k, v) map ->
     truthy k = true /\ forallb is_digit k = true
     /\ truthy v = true /\ trim v = v) ->
  NoDup (List.map fst (recordStep map rec))
  /\ (List.length (recordStep map rec) <= S (List.length map))%nat
  /\ forall k v, In (k, v) (recordStep map rec) ->
       truthy k = true /\ forallb is_digit k = true
       /\ truthy v = true /\ trim v = v.
Proof.
  intros Hnd Hin. unfold recordStep.
  destruct (findPmid true rec) as [pmid|] eqn:E;
    [|split; [exact Hnd | split; [lia | exact Hin]]].
  destruct (truthy (abstractOf rec)) eqn:Ea;
    [|split; [exact Hnd | split; [lia | exact Hin]]].
  split; [now apply assign_NoDup|]. split; [apply assign_length|].
  intros k v H. apply in_assign in H. destruct H as [H|H]; [|now apply Hin].
  injection H as -> ->. destruct (findPmid_digits _ _ _ E) as [H1 H2].
  repeat split; auto. unfold abstractOf. apply trim_idem.
Qed.

Lemma fold_recordStep_entries (recs : list jsstring)
    (map : list (jsstring * jsstring)) :
  NoDup (List.map fst map) ->
  (forall k v, In (k, v) map ->
     truthy k = true /\ forallb is_digit k = true
     /\ truthy v = true /\ trim v = v) ->
  NoDup (List.map fst (fold_left recordStep recs map))
  /\ (List.length (fold_left recordStep recs map)
      <= List.length recs + List.length map)%nat
  /\ forall k v, In (k, v) (fold_left recordStep recs map) ->
       truthy k = true /\ forallb is_digit k = true
       /\ truthy v = true /\ trim v = v.
Proof.
  revert map. induction recs as [|rec recs IH]; intros map Hnd Hin; simpl.
  - split; [exact Hnd | split; [lia | exact Hin]].
  - destruct (recordStep_entries map rec Hnd Hin) as (H1 & H2 & H3).
    destruct (IH _ H1 H3) as (H4 & H5 & H6).
    split; [exact H4|]. split; [lia | exact H6].
Qed.

(** X25: in the map that [parseAbstractsByPMID] returns every key is a run
    of digits that is not empty, every abstract is not empty and has no
    whitespace around it, no key occurs twice, and there are at most as many
    entries as the text has records (pieces between line feeds that
    ["PMID- "] follows). *)
Theorem parseAbstractsByPMID_entries (medlineText : jsstring) :
  let map := parseAbstractsByPMID medlineText in
  NoDup (List.map fst map)
  /\ (List.length map <= List.length (splitRecords [] medlineText))%nat
  /\ forall pmid abstract, In (pmid, abstract) map ->
       truthy pmid = true /\ forallb is_digit pmid = true
       /\ truthy abstract = true /\ trim abstract = abstract.
Proof.
  simpl. unfold parseAbstractsByPMID.
  destruct (fold_recordStep_entries (splitRecords [] medlineText) [])
    as (H1 & H2 & H3); [constructor | intros k v [] |].
  split; [exact H1|]. split; [simpl in H2; lia | exact H3].
Qed.

End Medline.

Lemma parseAbstractsByPMID_entries_witness :
  truthy (lit "123") = true /\ forallb is_digit (lit "123") = true
  /\ truthy (lit "First line of the abstract.") = true
  /\ trim (lit "First line of the abstract.")
     = lit "First line of the abstract.".
Proof.
  apply (proj2 (proj2 (parseAbstractsByPMID_entries medlineSample))).
  vm_compute. left. reflexivity.
Defined.

(** ** The MEDLINE parser: the abstract of a record *)

Section MedlineLines.

Import Eutils.

Lemma indented_not_field (line : jsstring) :
  startsWith (lit "  ") line = true -> fieldLine line = false.
Proof.
  unfold startsWith. change (lit "  ") with [32%N; 32%N].
  destruct line as [|c line]; [discriminate|].
  change (after [32%N; 32%N] (c :: line))
    with (if (32 =? c)%N then after [32%N] line else None).
  destruct (N.eqb_spec 32 c) as [<-|]; [|discriminate].
  intros _. reflexivity.
Qed.

Lemma field_not_indented (line : jsstring) :
  fieldLine line = true -> startsWith (lit "  ") line = false.
Proof.
  intros H. destruct (startsWith (lit "  ") line) eqn:E; [|reflexivity].
  rewrite (indented_not_field line E) in H. discriminate.
Qed.

(** Outside an abstract, lines that are no [AB] line change nothing. *)
Lemma fold_lineStep_outside (lines acc : list jsstring) :
  (forall l, In l lines -> abLine l = None) ->
  fold_left lineStep lines (false, acc) = (false, acc).
Proof.
  induction lines as [|l lines IH]; intros H; simpl; [reflexivity|].
  rewrite (H l (or_introl eq_refl)). simpl. apply IH.
  intros l' Hl'. apply H. now right.
Qed.

(** Inside an abstract, indented lines are appended, trimmed. *)
Lemma fold_lineStep_inside (conts acc : list jsstring) :
  (forall l, In l conts ->
     abLine l = None /\ startsWith (lit "  ") l = true) ->
  fold_left lineStep conts (true, acc)
  = (true, acc ++ List.map trim conts).
Proof.
  revert acc. induction conts as [|l conts IH]; intros acc H; simpl.
  - now rewrite app_nil_r.
  - destruct (H l (or_introl eq_refl)) as [H1 H2].
    rewrite H1, H2, (indented_not_field l H2). simpl.
    rewrite IH by (intros l' Hl'; apply H; now right).
    now rewrite <- app_assoc.
Qed.

(** X26: for a record with one [AB] line, the abstract is what stands
    behind the tag of that line, followed by the lines behind it that start
    with two spaces, each trimmed, all joined by single spaces and trimmed;
    it ends at the next field line, whatever follows. *)
Theorem abstractOf_record (rec abl first : jsstring)
    (pre conts post : list jsstring) :
  splitLines [] rec = pre ++ abl :: conts ++ post ->
  (forall l, In l pre -> abLine l = None) ->
  abLine abl = Some first ->
  (forall l, In l conts ->
     abLine l = None /\ startsWith (lit "  ") l = true) ->
  (forall l, In l post -> abLine l = None) ->
  (match post with [] => True | f :: _ => fieldLine f = true end) ->
  abstractOf rec = trim (join (lit " ") (first :: List.map trim conts)).
Proof.
  intros Hlines Hpre Habl Hconts Hpost Hfield. unfold abstractOf.
  rewrite Hlines, fold_left_app, (fold_lineStep_outside pre [] Hpre).
  simpl. rewrite Habl. simpl.
  rewrite fold_left_app, (fold_lineStep_inside conts [first] Hconts).
  destruct post as [|f rest]; [reflexivity|]. simpl.
  rewrite (Hpost f (or_introl eq_refl)), Hfield.
  rewrite (field_not_indented f Hfield). simpl.
  rewrite fold_lineStep_outside; [reflexivity|].
  intros l Hl. apply Hpost. now right.
Qed.

End MedlineLines.

(** The first record of the sample. *)
Lemma abstractOf_record_witness :
  Eutils.abstractOf
    (lit "PMID- 123" ++ [10%N] ++ lit "TI  - A title" ++ [10%N]
     ++ lit "AB  - First line of" ++ [10%N] ++ lit "      the abstract. "
     ++ [10%N] ++ lit "FAU - Doe J" ++ [10%N] ++ lit "      not abstract")
  = trim (join (lit " ")
            (lit "First line of"
             :: List.map trim [lit "      the abstract. "])).
Proof.
  apply (abstractOf_record _ (lit "AB  - First line of") (lit "First line of")
           [lit "PMID- 123"; lit "TI  - A title"]
           [lit "      the abstract. "]
           [lit "FAU - Doe J"; lit "      not abstract"]).
  - vm_compute. reflexivity.
  - intros l [<-|[<-|[]]]; vm_compute; reflexivity.
  - vm_compute. reflexivity.
  - intros l [<-|[]]. split; vm_compute; reflexivity.
  - intros l [<-|[<-|[]]]; vm_compute; reflexivity.
  - vm_compute. reflexivity.
Defined.

(** ** The cleaner *)

Example cleanNoAsterisk_samples :
  Cleaner.cleanNoAsterisk (lit "**Bold** and *it* text (*x*)")
  = lit "Bold and it text (x)"
  /\ Cleaner.cleanNoAsterisk
       (lit "* item one" ++ [10%N] ++ lit "  *   item two" ++ [10%N])
     = lit "- item one" ++ [10%N] ++ lit "- item two"
  /\ Cleaner.cleanNoAsterisk (lit "a * b **unclosed") = lit "a  b unclosed"
  /\ Cleaner.cleanNoAsterisk (lit "2*3 and 4*5") = lit "23 and 45"
  /\ Cleaner.cleanNoAsterisk (lit "* item *important*") = lit "item important".
Proof. repeat split; vm_compute; reflexivity. Qed.

Section CleanerFacts.

Import Cleaner.

Lemma unbold_no_star (s : jsstring) (inside : bool) :
  ~ In 42%N s -> unbold inside s = s.
Proof.
  revert inside. induction s as [|a r IH]; intros inside H; [reflexivity|].
  assert (Ha : (a =? 42)%N = false)
    by (apply N.eqb_neq; intros ->; apply H; now left).
  assert (Hr : ~ In 42%N r) by (intros Hin; apply H; now right).
  destruct r as [|b r']; [reflexivity|].
  cbn [unbold]. rewrite Ha. cbn [andb]. f_equal. now apply IH.
Qed.

Lemma unitalic_no_star (s : jsstring) (atStart : bool) :
  ~ In 42%N s -> unitalic atStart false s = s.
Proof.
  revert atStart. induction s as [|a r IH]; intros atStart H; [reflexivity|].
  assert (Ha : (a =? 42)%N = false)
    by (apply N.eqb_neq; intros ->; apply H; now left).
  assert (Hr : ~ In 42%N r) by (intros Hin; apply H; now right).
  cbn [unitalic]. rewrite Ha, andb_false_r. cbn [andb].
  destruct r as [|b r']; [reflexivity|].
  assert (Hb : (b =? 42)%N = false)
    by (apply N.eqb_neq; intros ->; apply Hr; now left).
  rewrite Hb, andb_false_r. cbn [andb]. f_equal. now apply IH.
Qed.

Lemma bulletHere_no_star (s : jsstring) : ~ In 42%N s -> bulletHere s = None.
Proof.
  intros H. unfold bulletHere.
  destruct (dropWhile is_ws s) as [|c r] eqn:E; [reflexivity|].
  destruct (N.eqb_spec c 42) as [->|Hc].
  - exfalso. apply H. apply (In_dropWhile is_ws). rewrite E. now left.
  - destruct c as [|p]; [reflexivity|].
    repeat (destruct p as [p|p|]; try reflexivity). congruence.
Qed.

Lemma bulletsFrom_no_star (fuel : nat) (s : jsstring) (lineStart : bool) :
  ~ In 42%N s -> bulletsFrom fuel lineStart s = s.
Proof.
  revert s lineStart. induction fuel as [|n IH]; intros s lineStart H;
    [reflexivity|].
  destruct s as [|a r]; [reflexivity|]. cbn [bulletsFrom].
  rewrite (bulletHere_no_star _ H).
  destruct lineStart; f_equal; apply IH; intros Hin; apply H; now right.
Qed.

Lemma dropStars_no_star (s : jsstring) : ~ In 42%N s -> dropStars s = s.
Proof.
  intros H. unfold dropStars. induction s as [|a r IH]; [reflexivity|].
  simpl. destruct (N.eqb_spec a 42) as [->|Ha].
  - exfalso. apply H. now left.
  - simpl. f_equal. apply IH. intros Hin. apply H. now right.
Qed.

Lemma dropStars_clean (s : jsstring) : ~ In 42%N (dropStars s).
Proof.
  unfold dropStars. intros H. apply filter_In in H. destruct H as [_ H].
  discriminate H.
Qed.

(** X27: the cleaned text holds no asterisk and no whitespace around it; a
    text without asterisks is only trimmed; and cleaning a cleaned text
    changes nothing. *)
Theorem cleanNoAsterisk_result (s : jsstring) :
  ~ In 42%N (cleanNoAsterisk s)
  /\ trim (cleanNoAsterisk s) = cleanNoAsterisk s
  /\ (~ In 42%N s -> cleanNoAsterisk s = trim s)
  /\ cleanNoAsterisk (cleanNoAsterisk s) = cleanNoAsterisk s.
Proof.
  assert (H1 : forall t, ~ In 42%N (cleanNoAsterisk t)).
  { intros t H. unfold cleanNoAsterisk in H. apply In_trim in H.
    exact (dropStars_clean _ H). }
  assert (H2 : forall t, trim (cleanNoAsterisk t) = cleanNoAsterisk t)
    by (intros t; apply trim_idem).
  assert (H3 : forall t, ~ In 42%N t -> cleanNoAsterisk t = trim t).
  { intros t H. unfold cleanNoAsterisk, bullets.
    rewrite (unbold_no_star t false H), (unitalic_no_star t true H).
    rewrite (bulletsFrom_no_star _ t true H). now rewrite dropStars_no_star. }
  repeat split; auto.
  rewrite (H3 _ (H1 s)). apply H2.
Qed.

End CleanerFacts.

Lemma cleanNoAsterisk_result_witness :
  Cleaner.cleanNoAsterisk (lit "  plain text ") = trim (lit "  plain text ").
Proof.
  apply (proj1 (proj2 (proj2 (cleanNoAsterisk_result (lit "  plain text "))))).
  vm_compute. intuition discriminate.
Defined.

(** ** Usage metering *)

Section UsageFacts.

Import Usage.

Lemma same_kind_eq (a b : UsageKind) : same_kind a b = true <-> a = b.
Proof. destruct a, b; simpl; split; congruence. Qed.

Lemma iter_increment (k : UsageKind) (n : nat) :
  let u := Nat.iter n (fun u => increment true u k 1) unused in
  u k = Z.of_nat n /\ forall k', k' <> k -> u k' = 0.
Proof.
  induction n as [|n [IH1 IH2]]; simpl.
  - split; reflexivity.
  - split.
    + replace (same_kind k k) with true
        by (symmetry; now apply same_kind_eq).
      simpl in IH1. rewrite IH1. lia.
    + intros k' Hk'. destruct (same_kind k' k) eqn:E.
      * apply same_kind_eq in E. contradiction.
      * now apply IH2.
Qed.

(** X28: a kind of use is exceeded exactly when its counter has reached the
    limit of the plan; what remains is never negative, and with the counter
    it makes up the limit while the counter is within it. Counting single
    uses from an unused period, the kind is exceeded from the use whose
    number is the limit, and the counters of the other kinds stay 0; without
    a user nothing is counted. *)
Theorem usage_quota (tier : PlanTier) (used : Used) (k : UsageKind) :
  (exceeded tier used k = true <-> PLAN_LIMITS tier k <= used k)
  /\ 0 <= remaining tier used k
  /\ (0 <= used k <= PLAN_LIMITS tier k ->
      remaining tier used k + used k = PLAN_LIMITS tier k)
  /\ (forall n : nat,
        let u := Nat.iter n (fun u => increment true u k 1) unused in
        (exceeded tier u k = true <-> PLAN_LIMITS tier k <= Z.of_nat n)
        /\ forall k', k' <> k -> u k' = 0)
  /\ (forall (n : nat) (k' : UsageKind),
        Nat.iter n (fun u => increment false u k 1) unused k' = 0).
Proof.
  assert (Hexc : forall u, exceeded tier u k = true
                            <-> PLAN_LIMITS tier k <= u k).
  { intros u. unfold exceeded, remaining. rewrite Z.leb_le. lia. }
  split; [apply Hexc|]. split; [unfold remaining; lia|].
  split; [unfold remaining; lia|]. split.
  - intros n u. destruct (iter_increment k n) as [H1 H2]. fold u in H1, H2.
    split; [|exact H2]. rewrite Hexc, H1. reflexivity.
  - intros n k'. induction n as [|n IH]; [reflexivity|]. simpl. exact IH.
Qed.

End UsageFacts.

Lemma usage_quota_witness :
  Usage.remaining Usage.free (fun _ => 20) Usage.lit_searches + 20
  = Usage.PLAN_LIMITS Usage.free Usage.lit_searches.
Proof.
  apply (proj1 (proj2 (proj2
    (usage_quota Usage.free (fun _ => 20) Usage.lit_searches)))).
  vm_compute. split; discriminate.
Defined.

(** ** The page's PubMed request and the route *)

Section ClientRequest.

Import PubMed Client.

Variables Summary Paper : Type.
Variable esearchFirstPMID : jsstring -> Outcome (option jsstring).
Variable esummaryOne : jsstring -> Outcome Summary.
Variable efetchAbstractOne : jsstring -> Outcome jsstring.
Variable buildPaper : jsstring -> Summary -> jsstring -> Outcome Paper.

Lemma field_trimmed (u : jsstring) :
  truthy u = true -> trim u = u -> field (Some u) = u.
Proof. intros H1 H2. unfold field. simpl. now rewrite H1, H2. Qed.

Lemma query_sent (q : jsstring) :
  let u := or_else (trim q) (lit "cancer") in
  truthy u = true /\ trim u = u.
Proof.
  simpl. unfold or_else. destruct (truthy (trim q)) eqn:E.
  - split; [exact E | apply trim_idem].
  - split; reflexivity.
Qed.

(** X29: the request that the workspace page posts is never answered with
    the 400 error: a blank query is sent as ["cancer"]; and in pmid mode
    with a pmid that is not blank the route does not search, so no 404
    either: the answer is the same for every search function. *)
Theorem workspace_pubmed_request (mode : Mode) (pmid q : jsstring) :
  let body := fetchPubMedBody mode pmid q in
  let resp :=
    POST esearchFirstPMID esummaryOne efetchAbstractOne buildPaper body in
  status _ resp <> 400
  /\ (mode = byPmid -> truthy (trim pmid) = true ->
      status _ resp <> 404
      /\ forall search' : jsstring -> Outcome (option jsstring),
           POST search' esummaryOne efetchAbstractOne buildPaper body = resp).
Proof.
  intros body resp.
  assert (Hfetched : forall p st,
             status _
               match esummaryOne p with
               | returns s =>
                   match efetchAbstractOne p with
                   | returns ab =>
                       match buildPaper p s ab with
                       | returns paper => json (paperBody paper) 200
                       | throws m =>
                           json (errorBody (or_else m (lit "Server error")))
                             500
                       end
                   | throws m =>
                       json (errorBody (or_else m (lit "Server error"))) 500
                   end
               | throws m =>
                   json (errorBody (or_else m (lit "Server error"))) 500
               end = st -> st = 200 \/ st = 500).
  { intros p st <-. destruct (esummaryOne p) as [s|]; [|now right].
    destruct (efetchAbstractOne p) as [ab|]; [|now right].
    destruct (buildPaper p s ab); [now left | now right]. }
  assert (Hpmid : truthy (trim pmid) = true ->
                  forall search',
                    POST search' esummaryOne efetchAbstractOne buildPaper
                      {| PubMed.pmid := Some (trim pmid); query := None |}
                    = match esummaryOne (trim pmid) with
                      | returns s =>
                          match efetchAbstractOne (trim pmid) with
                          | returns ab =>
                              match buildPaper (trim pmid) s ab with
                              | returns paper => json (paperBody paper) 200
                              | throws m =>
                                  json (errorBody
                                          (or_else m (lit "Server error")))
                                    500
                              end
                          | throws m =>
                              json (errorBody
                                      (or_else m (lit "Server error"))) 500
                          end
                      | throws m =>
                          json (errorBody (or_else m (lit "Server error")))
                            500
                      end).
  { intros Ht search'. rewrite post_cases. simpl PubMed.pmid.
    rewrite (field_trimmed (trim pmid) Ht (trim_idem pmid)), Ht.
    reflexivity. }
  assert (Hquery : status _
            (POST esearchFirstPMID esummaryOne efetchAbstractOne buildPaper
               {| PubMed.pmid := None;
                  query := Some (or_else (trim q) (lit "cancer")) |})
            <> 400).
  { destruct (query_sent q) as [Hu Htrim]. rewrite post_cases.
    simpl PubMed.pmid. simpl query.
    rewrite (field_trimmed _ Hu Htrim), Hu.
    change (truthy (field None)) with false. cbv iota.
    destruct (esearchFirstPMID (or_else (trim q) (lit "cancer")))
      as [found|m]; [|simpl; discriminate].
    cbv zeta.
    destruct (truthy match found with Some i => i | None => [] end);
      [|simpl; discriminate].
    intros H. destruct (Hfetched _ _ H); discriminate. }
  split.
  - unfold resp, body, fetchPubMedBody. destruct mode; [exact Hquery|].
    destruct (truthy (trim pmid)) eqn:Ht; [|exact Hquery].
    rewrite (Hpmid eq_refl). intros H. destruct (Hfetched _ _ H); discriminate.
  - intros -> Ht. unfold resp, body, fetchPubMedBody. rewrite Ht. split.
    + rewrite (Hpmid Ht). intros H. destruct (Hfetched _ _ H); discriminate.
    + intros search'. now rewrite !(Hpmid Ht).
Qed.

End ClientRequest.

Lemma workspace_pubmed_request_witness :
  PubMed.status _
    (PubMed.POST findsNothing noSummary noAbstract pmidOnly
       (Client.fetchPubMedBody Client.byPmid (lit " 12345678 ") (lit "")))
  <> 404.
Proof.
  apply (proj2 (workspace_pubmed_request unit jsstring findsNothing noSummary
                  noAbstract pmidOnly Client.byPmid (lit " 12345678 ")
                  (lit ""))); reflexivity.
Defined.

(** ** The MEDLINE parser: a text of one record *)

Section MedlineRecord.

Import Eutils.

Lemma takeWhile_app_all (p : N -> bool) (a b : jsstring) :
  forallb p a = true ->
  takeWhile p (a ++ b) = a ++ takeWhile p b.
Proof.
  induction a as [|c a IH]; simpl; [reflexivity|].
  intros H. apply andb_true_iff in H. destruct H as [Hc Ha].
  now rewrite Hc, IH.
Qed.

Lemma pmidHere_line (pmid rest : jsstring) :
  pmid <> [] -> forallb is_digit pmid = true ->
  match rest with [] => True | c :: _ => is_digit c = false end ->
  pmidHere (lit "PMID- " ++ pmid ++ rest) = Some pmid.
Proof.
  intros Hne Hd Hrest. unfold pmidHere.
  change (lit "PMID- " ++ pmid ++ rest)
    with (lit "PMID-" ++ 32%N :: pmid ++ rest).
  rewrite after_app.
  destruct pmid as [|d ds]; [congruence|].
  assert (Hws : is_ws d = false).
  { apply digit_not_ws. simpl in Hd. apply andb_true_iff in Hd. tauto. }
  assert (H1 : takeWhile is_ws (32%N :: (d :: ds) ++ rest) = [32%N])
    by (simpl; now rewrite Hws).
  assert (H2 : dropWhile is_ws (32%N :: (d :: ds) ++ rest)
               = (d :: ds) ++ rest)
    by (simpl; now rewrite Hws).
  assert (Hstop : takeWhile is_digit rest = []).
  { destruct rest as [|c r]; [reflexivity|]. simpl. now rewrite Hrest. }
  rewrite H1, H2, (takeWhile_app_all is_digit (d :: ds) rest Hd).
  rewrite Hstop, app_nil_r. reflexivity.
Qed.

(** X30: a text that is one record and starts with ["PMID- "], the digits
    of a pmid and then something that is no digit, gives the map with that
    pmid and the abstract of the record, and the empty map when the record
    has no abstract. *)
Theorem parseAbstractsByPMID_one_record (pmid rest : jsstring) :
  pmid <> [] -> forallb is_digit pmid = true ->
  match rest with [] => True | c :: _ => is_digit c = false end ->
  let rec := lit "PMID- " ++ pmid ++ rest in
  splitRecords [] rec = [rec] ->
  parseAbstractsByPMID rec
  = if truthy (abstractOf rec) then [(pmid, abstractOf rec)] else [].
Proof.
  intros Hne Hd Hrest rec Hsplit.
  unfold parseAbstractsByPMID. rewrite Hsplit. simpl fold_left.
  unfold recordStep.
  assert (Hfind : findPmid true rec = Some pmid).
  { unfold rec. pose proof (pmidHere_line pmid rest Hne Hd Hrest) as H.
    destruct (lit "PMID- " ++ pmid ++ rest) as [|c r] eqn:E;
      [discriminate E|].
    cbn [findPmid]. now rewrite H. }
  rewrite Hfind. destruct (truthy (abstractOf rec)); reflexivity.
Qed.

End MedlineRecord.

Lemma parseAbstractsByPMID_one_record_witness :
  Eutils.parseAbstractsByPMID
    (lit "PMID- " ++ lit "456" ++ ([10%N] ++ lit "AB  - Other."))
  = if truthy (Eutils.abstractOf
                 (lit "PMID- " ++ lit "456" ++ ([10%N] ++ lit "AB  - Other.")))
    then [(lit "456",
           Eutils.abstractOf
             (lit "PMID- " ++ lit "456" ++ ([10%N] ++ lit "AB  - Other.")))]
    else [].
Proof.
  apply (parseAbstractsByPMID_one_record (lit "456")
           ([10%N] ++ lit "AB  - Other."));
    [discriminate | reflexivity | reflexivity | vm_compute; reflexivity].
Defined.
